(** * planningcenterkit: the base client and its query builder

    A shallow embedding of [src/client.ts] (class [PcoClient]) and of
    [src/modules/people.ts] (class [PcoPeople]), and the properties of the
    specification checked against it.

    Conventions of the embedding:
    - a JavaScript string is a [string] (a sequence of 8-bit characters, the
      range on which [btoa] is defined);
    - a [number] used as a page size, an offset or an HTTP status is an
      integer [Z]; its rendering inside a template literal is its decimal
      numeral;
    - a filter value (typed [any]) is a string, an integer or a boolean;
    - an object literal used as a map is the list of its own properties in
      enumeration order, and for [this.filters] also its prototype;
    - a thrown exception or a rejected promise is the [Throw] case of
      [Result];
    - the mutable fields of the client are a record [PcoClient] that every
      method takes and returns;
    - [fetch] and [JSON.stringify] belong to the runtime and are parameters. *)

From Stdlib Require Import String Ascii List ZArith Bool Lia.
From Stdlib Require Import Numbers.DecimalString.
Import ListNotations.

Open Scope list_scope.
Open Scope Z_scope.
Open Scope string_scope.

Set Implicit Arguments.

(* ================================================================== *)
(** * Exceptions and results *)

(** The exception values the client meets: [new Error(message)] thrown by
    the client itself, the [TypeError] a failed [fetch] rejects with and the
    [SyntaxError] of [response.json()] on a body that is not JSON. *)
Inductive Exn : Type :=
| Error (message : string)
| TypeError (message : string)
| SyntaxError (message : string).

Inductive Result (A : Type) : Type :=
| Ok (a : A)
| Throw (e : Exn).

Arguments Ok {A} a.
Arguments Throw {A} e.

Definition bind {A B : Type} (r : Result A) (k : A -> Result B) : Result B :=
  match r with
  | Ok a => k a
  | Throw e => Throw e
  end.

Notation "x <- r ;; k" := (bind r (fun x => k))
  (at level 61, r at next level, right associativity).

Definition succeeds {A : Type} (r : Result A) : Prop := exists a, r = Ok a.

Definition message_of (e : Exn) : string :=
  match e with
  | Error m | TypeError m | SyntaxError m => m
  end.

(* ================================================================== *)
(** * Strings *)

(** [sub] occurs in [s] ([s.includes(sub)]). *)
Definition Contains (sub s : string) : Prop :=
  exists pre post, s = pre ++ sub ++ post.

(** The same as a test: [sub] is a prefix of [s] or occurs further on. *)
Fixpoint occurs (sub s : string) : bool :=
  String.prefix sub s ||
  match s with
  | EmptyString => false
  | String _ s' => occurs sub s'
  end.

(** [Array.prototype.join] on an array of strings. *)
Definition join (sep : string) (l : list string) : string := String.concat sep l.

(** [Number::toString] on an integer: the decimal numeral, with a leading
    minus sign below zero. *)
Definition number_to_string (n : Z) : string := NilZero.string_of_int (Z.to_int n).

(** Truthiness of a string: every string but the empty one. *)
Definition truthy (s : string) : bool := negb (s =? "").

(** A value of type [string | undefined] inside a concatenation. *)
Definition js_str (o : option string) : string :=
  match o with
  | Some s => s
  | None => "undefined"
  end.

(* ================================================================== *)
(** * Regular expressions

    The two regular expression literals of the client use character
    classes, concatenation, bounded repetition and alternation, anchored at
    both ends of the input. [String.prototype.match] with such a pattern
    returns a match exactly when the whole string belongs to the language
    of the pattern. *)

Inductive Regex : Type :=
| Void
| Eps
| Class (p : ascii -> bool)
| Seq (r1 r2 : Regex)
| Alt (r1 r2 : Regex).

(** [r{n}] *)
Fixpoint Rep (n : nat) (r : Regex) : Regex :=
  match n with
  | O => Eps
  | S n' => Seq r (Rep n' r)
  end.

(** A literal word. *)
Fixpoint Lit (s : string) : Regex :=
  match s with
  | EmptyString => Eps
  | String c s' => Seq (Class (Ascii.eqb c)) (Lit s')
  end.

Fixpoint nullable (r : Regex) : bool :=
  match r with
  | Void => false
  | Eps => true
  | Class _ => false
  | Seq r1 r2 => nullable r1 && nullable r2
  | Alt r1 r2 => nullable r1 || nullable r2
  end.

Fixpoint deriv (c : ascii) (r : Regex) : Regex :=
  match r with
  | Void => Void
  | Eps => Void
  | Class p => if p c then Eps else Void
  | Seq r1 r2 =>
      if nullable r1 then Alt (Seq (deriv c r1) r2) (deriv c r2)
      else Seq (deriv c r1) r2
  | Alt r1 r2 => Alt (deriv c r1) (deriv c r2)
  end.

(** [s.match(/^r$/) !== null] *)
Fixpoint matches (r : Regex) (s : string) : bool :=
  match s with
  | EmptyString => nullable r
  | String c s' => matches (deriv c r) s'
  end.

(** The language of a pattern, as a relation. *)
Inductive InLang : Regex -> string -> Prop :=
| InEps : InLang Eps ""
| InClass p c : p c = true -> InLang (Class p) (String c "")
| InSeq r1 r2 s1 s2 : InLang r1 s1 -> InLang r2 s2 -> InLang (Seq r1 r2) (s1 ++ s2)
| InAltL r1 r2 s : InLang r1 s -> InLang (Alt r1 r2) s
| InAltR r1 r2 s : InLang r2 s -> InLang (Alt r1 r2) s.

(** [\d] *)
Definition digit (c : ascii) : bool :=
  let n := N_of_ascii c in (48 <=? n)%N && (n <=? 57)%N.

(** [[0-9a-f]] *)
Definition hex_lower (c : ascii) : bool :=
  let n := N_of_ascii c in
  ((48 <=? n)%N && (n <=? 57)%N) || ((97 <=? n)%N && (n <=? 102)%N).

(** [/^\d{4}-\d{2}-\d{2}$/] *)
Definition version_pattern : Regex :=
  Seq (Rep 4 (Class digit))
      (Seq (Lit "-") (Seq (Rep 2 (Class digit)) (Seq (Lit "-") (Rep 2 (Class digit))))).

(** [/^[0-9a-f]{64}$|^pco_tok_[0-9a-f]{72}$/] *)
Definition token_pattern : Regex :=
  Alt (Rep 64 (Class hex_lower))
      (Seq (Lit "pco_tok_") (Rep 72 (Class hex_lower))).

(** [every c of s satisfies p] *)
Fixpoint all_chars (p : ascii -> bool) (s : string) : bool :=
  match s with
  | EmptyString => true
  | String c s' => p c && all_chars p s'
  end.

(* ================================================================== *)
(** * [btoa]: base64 of a binary string *)

Definition base64_alphabet : string :=
  "ABCDEFGHIJKLMNOPQRSTUVWXYZabcdefghijklmnopqrstuvwxyz0123456789+/".

Definition sextet (n : N) : ascii :=
  match String.get (N.to_nat n) base64_alphabet with
  | Some c => c
  | None => "="%char
  end.

Fixpoint btoa (s : string) : string :=
  match s with
  | EmptyString => ""
  | String a EmptyString =>
      let x := N_of_ascii a in
      String (sextet (x / 4)) (String (sextet ((x mod 4) * 16)) "==")
  | String a (String b EmptyString) =>
      let x := N_of_ascii a in
      let y := N_of_ascii b in
      String (sextet (x / 4))
        (String (sextet ((x mod 4) * 16 + y / 16))
           (String (sextet ((y mod 16) * 4)) "="))
  | String a (String b (String c rest)) =>
      let x := N_of_ascii a in
      let y := N_of_ascii b in
      let z := N_of_ascii c in
      String (sextet (x / 4))
        (String (sextet ((x mod 4) * 16 + y / 16))
           (String (sextet ((y mod 16) * 4 + z / 64))
              (String (sextet (z mod 64)) (btoa rest))))
  end%N.

(* ================================================================== *)
(** * Own properties of an ordinary object

    An object literal used as a map. Its own string keys are enumerated
    ([for ... in], object spread) with the array indices first, in
    ascending numeric order, and the other keys after them in the order in
    which they were created; writing to an existing key keeps its place.
    The list of own properties is kept in that order. *)

Fixpoint digits_value (acc : N) (s : string) : N :=
  match s with
  | EmptyString => acc
  | String c s' => digits_value (acc * 10 + (N_of_ascii c - 48))%N s'
  end.

(** An array index is the canonical numeral of an integer below [2^32 - 1]. *)
Definition array_index (k : string) : option N :=
  match k with
  | EmptyString => None
  | String c rest =>
      if all_chars digit k && (negb (Ascii.eqb c "0") || (rest =? "")) then
        let n := digits_value 0 k in
        if (n <=? 4294967294)%N then Some n else None
      else None
  end.

Section OwnProperties.
Variable V : Type.

Fixpoint own_get (k : string) (l : list (string * V)) : option V :=
  match l with
  | [] => None
  | (k', v) :: l' => if k' =? k then Some v else own_get k l'
  end.

Definition own_has (k : string) (l : list (string * V)) : bool :=
  match own_get k l with
  | Some _ => true
  | None => false
  end.

Fixpoint own_replace (k : string) (v : V) (l : list (string * V)) : list (string * V) :=
  match l with
  | [] => []
  | (k', v') :: l' =>
      if k' =? k then (k, v) :: l' else (k', v') :: own_replace k v l'
  end.

(** A new array index goes before the first key that is a larger index or
    not an index at all. *)
Fixpoint own_insert_index (i : N) (k : string) (v : V) (l : list (string * V))
  : list (string * V) :=
  match l with
  | [] => [(k, v)]
  | (k', v') :: l' =>
      match array_index k' with
      | Some j =>
          if (j <? i)%N then (k', v') :: own_insert_index i k v l'
          else (k, v) :: l
      | None => (k, v) :: l
      end
  end.

(** [o[k] = v] on own data properties (also one step of an object spread). *)
Definition own_define (k : string) (v : V) (l : list (string * V)) : list (string * V) :=
  if own_has k l then own_replace k v l
  else match array_index k with
       | Some i => own_insert_index i k v l
       | None => l ++ [(k, v)]
       end.

(** [{...src}] copied over [dst]. *)
Definition spread (src dst : list (string * V)) : list (string * V) :=
  fold_left (fun o kv => own_define (fst kv) (snd kv) o) src dst.
End OwnProperties.

(* ================================================================== *)
(** * Data model *)

(** The filter values the embedding covers: strings, integers, booleans. *)
Inductive Scalar : Type :=
| SStr (s : string)
| SNum (n : Z)
| SBool (b : bool).

(** [ToString] *)
Definition to_string (v : Scalar) : string :=
  match v with
  | SStr s => s
  | SNum n => number_to_string n
  | SBool true => "true"
  | SBool false => "false"
  end.

(** [${x}] where [x] may be [undefined] *)
Definition template (x : option Scalar) : string :=
  match x with
  | Some v => to_string v
  | None => "undefined"
  end.

Module Filter.
Record t : Type := { operator : string; value : Scalar }.
End Filter.

Module Filters.
(** The object held by [this.filters]. [proto = None] is the prototype of
    an object literal, [Object.prototype], which has nothing enumerable.
    Assigning to the key [__proto__] of an object literal does not create
    a property: it runs the setter inherited from [Object.prototype],
    which makes the assigned object the prototype; [proto = Some f] is
    that state, the prototype being the object [{ operator, value }]. *)
Record t : Type := { own : list (string * Filter.t); proto : option Filter.t }.

Definition empty : t := {| own := []; proto := None |}.

(** [filters[field] = f] *)
Definition set (field : string) (f : Filter.t) (o : t) : t :=
  if field =? "__proto__" then {| own := own o; proto := Some f |}
  else {| own := own_define field f (own o); proto := proto o |}.

(** What [filters[field]] reads at an enumerated key: an own property
    holds a filter object, an inherited one holds a member of the
    prototype. *)
Inductive property : Type :=
| OwnFilter (f : Filter.t)
| Inherited (v : Scalar).

(** The keys [for (field in filters)] visits, in order, each with
    [filters[field]]: the own properties, then the enumerable properties
    of the prototype that no own property shadows. *)
Definition enumerate (o : t) : list (string * property) :=
  (map (fun kf => (fst kf, OwnFilter (snd kf))) (own o) ++
   match proto o with
   | None => []
   | Some p =>
       filter (fun kp => negb (own_has (fst kp) (own o)))
         [("operator", Inherited (SStr (Filter.operator p)));
          ("value", Inherited (Filter.value p))]
   end)%list.

(** [filter.operator]: a member of the filter object; a string, a number
    or a boolean has no such member. *)
Definition get_operator (p : property) : option Scalar :=
  match p with
  | OwnFilter f => Some (SStr (Filter.operator f))
  | Inherited _ => None
  end.

(** [filter.value] *)
Definition get_value (p : property) : option Scalar :=
  match p with
  | OwnFilter f => Some (Filter.value f)
  | Inherited _ => None
  end.
End Filters.

Module Order.
Record t : Type := { field : string; symbol : string }.
End Order.

Module Pagination.
Record t : Type := { limit : Z; offset : Z }.
End Pagination.

Inductive Direction : Type := asc | desc.

Module Config.
(** The configuration object; [None] is a key that is absent.
    [PcoClientConfigPersonalAccessToken] has [personalAccessToken] and
    [appId], [PcoClientConfigOAuth] has [token], [clientId],
    [clientSecret], [refreshToken] and [expiresAt]. *)
Record t : Type := {
  personalAccessToken : option string;
  appId : option string;
  token : option string;
  clientId : option string;
  clientSecret : option string;
  refreshToken : option string;
  expiresAt : option Z;
  customApiBaseUrl : option string;
  version : option string
}.
End Config.

Record PcoClient : Type := {
  customApiBaseUrl : option string;   (* [None] is [false] *)
  version : option string;            (* [None] is [undefined] *)
  authentication : string;
  includes : list string;
  filters : Filters.t;
  order : Order.t;
  pagination : Pagination.t
}.

#[local] Set Warnings "-register-all".
Inductive Json : Type :=
| JNull
| JBool (b : bool)
| JNumber (n : Z)
| JString (s : string)
| JArray (l : list Json)
| JObject (l : list (string * Json)).

Module Response.
(** The members of a [Response] the client reads; [json] is what
    [response.json()] settles to. *)
Record t : Type := { status : Z; statusText : string; json : Result Json }.

(** [response.ok]: the status is in the range 200 to 299. *)
Definition ok (r : t) : bool := (200 <=? status r)%Z && (status r <=? 299)%Z.
End Response.

Module RequestInit.
Record t : Type := {
  method : option string;
  headers : list (string * string);   (* [[]] is [undefined] *)
  body : option string
}.

Definition empty : t := {| method := None; headers := []; body := None |}.
End RequestInit.

(** One call of [fetch]. *)
Record FetchCall : Type := { url : string; init : RequestInit.t }.

(* ================================================================== *)
(** * The base client, [PcoClient] *)

Definition default_order : Order.t :=
  {| Order.field := "created_at"; Order.symbol := "" |}.

Definition default_pagination : Pagination.t :=
  {| Pagination.limit := 10; Pagination.offset := 0 |}.

(** [validateToken] *)
Definition validateToken (token : string) : bool := matches token_pattern token.

(** The first statement of the constructor: the value kept in
    [this.version]. A version that is absent, or present and falsy, is left
    [undefined] without being looked at. *)
Definition constructor_version (config : Config.t) : Result (option string) :=
  match Config.version config with
  | Some v =>
      if truthy v then
        if negb (matches version_pattern v) then Throw (Error "Invalid version format")
        else Ok (Some v)
      else Ok None
  | None => Ok None
  end.

(** The second statement of the constructor: the value kept in
    [this.authentication]. *)
Definition constructor_authentication (config : Config.t) : Result string :=
  match Config.personalAccessToken config with
  | Some personalAccessToken =>
      Ok ("Basic " ++ btoa (js_str (Config.appId config) ++ ":" ++ personalAccessToken))
  | None =>
      match Config.token config with
      | Some token =>
          if negb (validateToken token) then Throw (Error "Invalid token format")
          else Ok ("Bearer " ++ token)
      | None => Throw (Error "Invalid configuration")
      end
  end.

(** [new PcoClient(config)]: the field initialisers, then the body. *)
Definition constructor (config : Config.t) : Result PcoClient :=
  v <- constructor_version config ;;
  a <- constructor_authentication config ;;
  Ok {| customApiBaseUrl := Config.customApiBaseUrl config;
        version := v;
        authentication := a;
        includes := [];
        filters := Filters.empty;
        order := default_order;
        pagination := default_pagination |}.

(** ** Query builder methods; each returns [this] *)

Definition include (relations : list string) (this : PcoClient) : PcoClient :=
  {| customApiBaseUrl := customApiBaseUrl this;
     version := version this;
     authentication := authentication this;
     includes := relations;
     filters := filters this;
     order := order this;
     pagination := pagination this |}.

Definition where_ (field operator : string) (value : Scalar) (this : PcoClient)
  : PcoClient :=
  {| customApiBaseUrl := customApiBaseUrl this;
     version := version this;
     authentication := authentication this;
     includes := includes this;
     filters :=
       Filters.set field {| Filter.operator := operator; Filter.value := value |}
         (filters this);
     order := order this;
     pagination := pagination this |}.

(** [direction = None] is a call without the second argument, which takes
    the default ['desc']. *)
Definition orderBy (field : string) (direction : option Direction) (this : PcoClient)
  : PcoClient :=
  let direction := match direction with Some d => d | None => desc end in
  let symbol := match direction with asc => "-" | desc => "" end in
  {| customApiBaseUrl := customApiBaseUrl this;
     version := version this;
     authentication := authentication this;
     includes := includes this;
     filters := filters this;
     order := {| Order.field := field; Order.symbol := symbol |};
     pagination := pagination this |}.

Definition paginate (limit offset : Z) (this : PcoClient) : PcoClient :=
  {| customApiBaseUrl := customApiBaseUrl this;
     version := version this;
     authentication := authentication this;
     includes := includes this;
     filters := filters this;
     order := order this;
     pagination := {| Pagination.limit := limit; Pagination.offset := offset |} |}.

(** One turn of the loop of [buildQuery]. *)
Definition buildQuery_step (query : string) (entry : string * Filters.property) : string :=
  let field := fst entry in
  let filter := snd entry in
  query ++ "&where[" ++ field ++ "]"
        ++ template (Filters.get_operator filter)
        ++ template (Filters.get_value filter).

(** [buildQuery]: the query string and the client with its builder fields
    cleaned up. *)
Definition buildQuery (this : PcoClient) : string * PcoClient :=
  let query := "?include=" ++ join "," (includes this) in
  let query := fold_left buildQuery_step (Filters.enumerate (filters this)) query in
  let query :=
    query ++ "&order=" ++ Order.symbol (order this) ++ Order.field (order this) in
  let query :=
    query ++ "&limit=" ++ number_to_string (Pagination.limit (pagination this))
          ++ "&offset=" ++ number_to_string (Pagination.offset (pagination this)) in
  (query,
   {| customApiBaseUrl := customApiBaseUrl this;
      version := version this;
      authentication := authentication this;
      includes := [];
      filters := Filters.empty;
      order := {| Order.field := "created_at"; Order.symbol := "" |};
      pagination := {| Pagination.limit := 10; Pagination.offset := 0 |} |}).

(** ** Requests *)

(** The message of the error thrown on a response that is not [ok]: three
    lines with the status, the status text and a link. *)
Definition request_failed (response : Response.t) : string :=
  "API request failed with status " ++ number_to_string (Response.status response)
  ++ String "010" ""
  ++ Response.statusText response
  ++ String "010" ""
  ++ "More details: https://developer.planning.center/docs/#/overview/errors".

Section Runtime.
(** [fetch(url, init)] settles to a response or rejects. *)
Variable fetch : FetchCall -> Result Response.t.
(** [JSON.stringify] *)
Variable JSON_stringify : Json -> string.

(** The options as [request] leaves them before the call of [fetch]. *)
Definition request_options (this : PcoClient) (options : RequestInit.t) : RequestInit.t :=
  match version this with
  | Some v =>
      if truthy v then
        {| RequestInit.method := RequestInit.method options;
           RequestInit.headers :=
             own_define "X-PCO-API-Version" v (spread (RequestInit.headers options) []);
           RequestInit.body := RequestInit.body options |}
      else options
  | None => options
  end.

(** The one call of [fetch] that [request] makes. *)
Definition request_call (this : PcoClient) (endpoint : string) (options : RequestInit.t)
  : FetchCall :=
  let options := request_options this options in
  let apiBaseUrl :=
    match customApiBaseUrl this with
    | Some u => if truthy u then u else "https://api.planningcenteronline.com"
    | None => "https://api.planningcenteronline.com"
    end in
  {| url := apiBaseUrl ++ endpoint;
     init :=
       {| RequestInit.method := RequestInit.method options;
          RequestInit.headers :=
            own_define "Authorization" (authentication this)
              (own_define "Content-Type" "application/json"
                 (spread (RequestInit.headers options) []));
          RequestInit.body := RequestInit.body options |} |}.

(** [request(endpoint, options)]: what the returned promise settles to. *)
Definition request (this : PcoClient) (endpoint : string) (options : RequestInit.t)
  : Result Json :=
  response <- fetch (request_call this endpoint options) ;;
  if negb (Response.ok response) then Throw (Error (request_failed response))
  else Response.json response.

(** The terminal requests: the promise's outcome and the client after the
    call. The query is built, and the builder cleaned up, before
    [request] runs. *)
Definition get (endpoint : string) (this : PcoClient) : Result Json * PcoClient :=
  let (query, this) := buildQuery this in
  (request this (endpoint ++ query) RequestInit.empty, this).

Definition post (endpoint : string) (body : Json) (this : PcoClient)
  : Result Json * PcoClient :=
  let (query, this) := buildQuery this in
  (request this (endpoint ++ query)
     {| RequestInit.method := Some "POST"; RequestInit.headers := [];
        RequestInit.body := Some (JSON_stringify body) |},
   this).

Definition patch (endpoint : string) (body : Json) (this : PcoClient)
  : Result Json * PcoClient :=
  let (query, this) := buildQuery this in
  (request this (endpoint ++ query)
     {| RequestInit.method := Some "PATCH"; RequestInit.headers := [];
        RequestInit.body := Some (JSON_stringify body) |},
   this).

Definition delete (endpoint : string) (this : PcoClient) : Result Json * PcoClient :=
  let (query, this) := buildQuery this in
  (request this (endpoint ++ query)
     {| RequestInit.method := Some "DELETE"; RequestInit.headers := [];
        RequestInit.body := None |},
   this).

(** [PcoPeople.getPerson] *)
Definition getPerson (this : PcoClient) : Result Json * PcoClient :=
  let (query, this) := buildQuery this in
  (request this ("/people/v2/people" ++ query) RequestInit.empty, this).
End Runtime.

(* ================================================================== *)
(** * Sequences of calls on one client *)

(** A synchronous call on a client: a builder method or [buildQuery]. *)
Inductive Call : Type :=
| CallInclude (relations : list string)
| CallWhere (field operator : string) (value : Scalar)
| CallOrderBy (field : string) (direction : option Direction)
| CallPaginate (limit offset : Z)
| CallBuildQuery.

Definition call (m : Call) (this : PcoClient) : PcoClient :=
  match m with
  | CallInclude relations => include relations this
  | CallWhere field operator value => where_ field operator value this
  | CallOrderBy field direction => orderBy field direction this
  | CallPaginate limit offset => paginate limit offset this
  | CallBuildQuery => snd (buildQuery this)
  end.

(** The calls of [calls] made one after the other. *)
Definition chain (calls : list Call) (this : PcoClient) : PcoClient :=
  fold_left (fun c m => call m c) calls this.

Definition is_paginate (m : Call) : bool :=
  match m with
  | CallPaginate _ _ => true
  | _ => false
  end.

(* ================================================================== *)
(** * The statements of the specification, in its own words *)

(** A version string of the form YYYY-MM-DD: four digits, a dash, two
    digits, a dash, two digits. *)
Definition YYYY_MM_DD (v : string) : Prop :=
  exists y m d,
    v = y ++ "-" ++ m ++ "-" ++ d /\
    String.length y = 4%nat /\ all_chars digit y = true /\
    String.length m = 2%nat /\ all_chars digit m = true /\
    String.length d = 2%nat /\ all_chars digit d = true.

(** A legacy token is 64 hexadecimal digits (0-9, a-f); a current one is
    the prefix [pco_tok_] followed by 72 hexadecimal digits. *)
Definition token_format (t : string) : Prop :=
  (String.length t = 64%nat /\ all_chars hex_lower t = true) \/
  (exists h, t = "pco_tok_" ++ h /\
             String.length h = 72%nat /\ all_chars hex_lower h = true).

(** One [where] segment of the query string. *)
Definition where_segment (field operator value : string) : string :=
  "&where[" ++ field ++ "]" ++ operator ++ value.

(** The segment of an enumerated key: its name with the operator and the
    value of what is stored there, as a template literal renders them. *)
Definition entry_segment (entry : string * Filters.property) : string :=
  where_segment (fst entry)
    (template (Filters.get_operator (snd entry)))
    (template (Filters.get_value (snd entry))).

(** The segment of a stored filter. *)
Definition filter_segment (entry : string * Filter.t) : string :=
  where_segment (fst entry) (Filter.operator (snd entry))
    (to_string (Filter.value (snd entry))).

Fixpoint concat_all (l : list string) : string :=
  match l with
  | [] => ""
  | s :: l' => s ++ concat_all l'
  end.

(** The query string grammar:
    [?include=<csv><where segments>&order=<symbol><field>&limit=<n>&offset=<n>]. *)
Definition query_string (includes : list string) (segments : list string)
  (order : Order.t) (pagination : Pagination.t) : string :=
  "?include=" ++ join "," includes
  ++ concat_all segments
  ++ "&order=" ++ Order.symbol order ++ Order.field order
  ++ "&limit=" ++ number_to_string (Pagination.limit pagination)
  ++ "&offset=" ++ number_to_string (Pagination.offset pagination).

(** The version of a configuration passes the constructor's check: it is
    absent, empty, or of the form YYYY-MM-DD. *)
Definition version_accepted (config : Config.t) : Prop :=
  match Config.version config with
  | None => True
  | Some v => v = "" \/ YYYY_MM_DD v
  end.



(** The header [name] of a call of [fetch]. *)
Definition header (name : string) (c : FetchCall) : option string :=
  own_get name (RequestInit.headers (init c)).

(* ================================================================== *)
(** * Further notions used to state how the methods compose *)

(** Which method a call is. *)
Definition call_kind (m : Call) : nat :=
  match m with
  | CallInclude _ => 0
  | CallWhere _ _ _ => 1
  | CallOrderBy _ _ => 2
  | CallPaginate _ _ => 3
  | CallBuildQuery => 4
  end%nat.


(** The base URL a configuration asks for: [customApiBaseUrl] when it is
    present and not empty, the public URL of the API otherwise. *)
Definition configured_base_url (config : Config.t) : string :=
  match Config.customApiBaseUrl config with
  | Some u => if u =? "" then "https://api.planningcenteronline.com" else u
  | None => "https://api.planningcenteronline.com"
  end.

(** A character that an accepted token can hold: a lowercase hexadecimal
    digit or a character of the prefix [pco_tok_]. *)
Definition token_char (c : ascii) : bool :=
  hex_lower c || occurs (String c "") "pco_tok_".

(* ================================================================== *)
(** * Sample values *)

Definition legacy_token : string :=
  "0123456789abcdef0123456789abcdef0123456789abcdef0123456789abcdef".

Definition current_token : string :=
  "pco_tok_0123456789abcdef0123456789abcdef0123456789abcdef0123456789abcdef01234567".

Definition pat_config (version : option string) : Config.t :=
  {| Config.personalAccessToken := Some "secret";
     Config.appId := Some "app";
     Config.token := None;
     Config.clientId := None;
     Config.clientSecret := None;
     Config.refreshToken := None;
     Config.expiresAt := None;
     Config.customApiBaseUrl := None;
     Config.version := version |}.

Definition oauth_config (token : string) (version : option string) : Config.t :=
  {| Config.personalAccessToken := None;
     Config.appId := None;
     Config.token := Some token;
     Config.clientId := Some "id";
     Config.clientSecret := Some "shh";
     Config.refreshToken := Some "again";
     Config.expiresAt := Some 1730000000000;
     Config.customApiBaseUrl := None;
     Config.version := version |}.


(** A configuration for a server on the local machine. *)
Definition local_config : Config.t :=
  {| Config.personalAccessToken := Some "secret";
     Config.appId := Some "app";
     Config.token := None;
     Config.clientId := None;
     Config.clientSecret := None;
     Config.refreshToken := None;
     Config.expiresAt := None;
     Config.customApiBaseUrl := Some "http://localhost:8080";
     Config.version := None |}.

(** A client as the constructor leaves it. *)
Definition fresh_client (authentication : string) (version : option string) : PcoClient :=
  {| customApiBaseUrl := None;
     version := version;
     authentication := authentication;
     includes := [];
     filters := Filters.empty;
     order := default_order;
     pagination := default_pagination |}.

(** [{"data":[],"meta":{"total_count":0}}] *)
Definition empty_people : Json :=
  JObject [("data", JArray []); ("meta", JObject [("total_count", JNumber 0)])].

(** A transport that answers every call with the same response. *)
Definition always (r : Response.t) : FetchCall -> Result Response.t := fun _ => Ok r.

(* ================================================================== *)
(** * Checks on concrete inputs *)

Example number_to_string_25 : number_to_string 25 = "25".
Proof. reflexivity. Qed.
Example number_to_string_0 : number_to_string 0 = "0".
Proof. reflexivity. Qed.
Example number_to_string_neg : number_to_string (-7) = "-7".
Proof. reflexivity. Qed.
Example version_ok : matches version_pattern "2024-06-09" = true.
Proof. reflexivity. Qed.
Example version_bad : matches version_pattern "2024-6-9" = false.
Proof. reflexivity. Qed.
Example token_ok :
  matches token_pattern
    "0123456789abcdef0123456789abcdef0123456789abcdef0123456789abcdef" = true.
Proof. vm_compute. reflexivity. Qed.
Example token_current_ok : validateToken current_token = true.
Proof. vm_compute. reflexivity. Qed.
Example token_upper_bad :
  validateToken "0123456789ABCDEF0123456789abcdef0123456789abcdef0123456789abcdef" = false.
Proof. vm_compute. reflexivity. Qed.
Example btoa_sample : btoa "app:secret" = "YXBwOnNlY3JldA==".
Proof. vm_compute. reflexivity. Qed.
Example btoa_sample2 : btoa "Man" = "TWFu" /\ btoa "Ma" = "TWE=" /\ btoa "M" = "TQ==".
Proof. vm_compute. repeat split. Qed.
Example array_index_samples :
  array_index "0" = Some 0%N /\ array_index "42" = Some 42%N /\
  array_index "042" = None /\ array_index "4294967294" = Some 4294967294%N /\
  array_index "4294967295" = None /\ array_index "a1" = None /\ array_index "" = None.
Proof. vm_compute. repeat split. Qed.
Example own_define_order :
  map fst (own_define "1" 4 (own_define "a" 3 (own_define "2" 2 (own_define "b" 1 []))))
  = ["1"; "2"; "b"; "a"].
Proof. vm_compute. reflexivity. Qed.
Example own_define_overwrite :
  own_define "b" 9 (own_define "a" 3 (own_define "b" 1 [])) = [("b", 9); ("a", 3)].
Proof. vm_compute. reflexivity. Qed.
Example buildQuery_fresh :
  fst (buildQuery (fresh_client "x" None)) = "?include=&order=created_at&limit=10&offset=0".
Proof. vm_compute. reflexivity. Qed.
Example buildQuery_sample :
  fst (buildQuery
         (paginate 25 50
            (orderBy "name" (Some asc)
               (where_ "status" "=" (SStr "active")
                  (include ["emails"; "addresses"] (fresh_client "x" None))))))
  = "?include=emails,addresses&where[status]=active&order=-name&limit=25&offset=50".
Proof. vm_compute. reflexivity. Qed.

(* ================================================================== *)
(** * Strings: concatenation and occurrence *)

Lemma append_assoc (a b c : string) : (a ++ b) ++ c = a ++ (b ++ c).
Proof. induction a as [|x a IH]; simpl; [reflexivity | now rewrite IH]. Qed.

Lemma append_empty_r (a : string) : a ++ "" = a.
Proof. induction a as [|x a IH]; simpl; [reflexivity | now rewrite IH]. Qed.

Lemma append_length (a b : string) :
  String.length (a ++ b) = (String.length a + String.length b)%nat.
Proof. induction a as [|x a IH]; simpl; [reflexivity | now rewrite IH]. Qed.

Lemma append_eq_empty (a b : string) : a ++ b = "" -> a = "" /\ b = "".
Proof. destruct a; simpl; [auto | discriminate]. Qed.

Lemma append_inv_head (a b c : string) : a ++ b = a ++ c -> b = c.
Proof.
  induction a as [|x a IH]; simpl; intros H; [exact H|].
  injection H as H. auto.
Qed.

Lemma all_chars_app (p : ascii -> bool) (a b : string) :
  all_chars p (a ++ b) = all_chars p a && all_chars p b.
Proof.
  induction a as [|x a IH]; simpl; [reflexivity|].
  now rewrite IH, andb_assoc.
Qed.

Lemma Contains_refl (s : string) : Contains s s.
Proof. exists "", "". simpl. now rewrite append_empty_r. Qed.

Lemma Contains_here (sub post : string) : Contains sub (sub ++ post).
Proof. now exists "", post. Qed.

Lemma Contains_app_l (sub a s : string) : Contains sub s -> Contains sub (a ++ s).
Proof.
  intros (pre & post & ->). exists (a ++ pre), post. now rewrite append_assoc.
Qed.

Lemma Contains_app_r (sub s b : string) : Contains sub s -> Contains sub (s ++ b).
Proof.
  intros (pre & post & ->). exists pre, (post ++ b).
  now rewrite !append_assoc.
Qed.

Lemma Contains_trans (a b c : string) : Contains a b -> Contains b c -> Contains a c.
Proof.
  intros (p1 & q1 & ->) (p2 & q2 & ->).
  exists (p2 ++ p1), (q1 ++ q2). now rewrite !append_assoc.
Qed.

Lemma concat_all_app (l1 l2 : list string) :
  concat_all (l1 ++ l2)%list = concat_all l1 ++ concat_all l2.
Proof.
  induction l1 as [|s l1 IH]; simpl; [reflexivity|].
  now rewrite IH, append_assoc.
Qed.

Lemma Contains_concat_all (s : string) (l : list string) :
  In s l -> Contains s (concat_all l).
Proof.
  induction l as [|x l IH]; simpl; [intros []|].
  intros [-> | H].
  - apply Contains_here.
  - apply Contains_app_l. auto.
Qed.

(* ================================================================== *)
(** * Regular expressions: the matcher decides the language *)

Lemma InLang_empty_nullable (r : Regex) (s : string) :
  InLang r s -> s = "" -> nullable r = true.
Proof.
  induction 1 as [ | p c Hp | r1 r2 s1 s2 H1 IH1 H2 IH2
                 | r1 r2 s H IH | r1 r2 s H IH ]; intros E; simpl.
  - reflexivity.
  - discriminate.
  - apply append_eq_empty in E as [E1 E2].
    now rewrite IH1, IH2.
  - now rewrite IH.
  - rewrite IH by assumption. apply orb_true_r.
Qed.

Lemma nullable_InLang (r : Regex) : nullable r = true -> InLang r "".
Proof.
  induction r as [ | | p | r1 IH1 r2 IH2 | r1 IH1 r2 IH2 ]; simpl; intros H.
  - discriminate.
  - constructor.
  - discriminate.
  - apply andb_true_iff in H as [H1 H2].
    change "" with ("" ++ ""). constructor; auto.
  - apply orb_true_iff in H as [H | H]; [apply InAltL | apply InAltR]; auto.
Qed.

Lemma deriv_sound (c : ascii) (r : Regex) :
  forall s, InLang (deriv c r) s -> InLang r (String c s).
Proof.
  induction r as [ | | p | r1 IH1 r2 IH2 | r1 IH1 r2 IH2 ]; simpl; intros s H.
  - inversion H.
  - inversion H.
  - destruct (p c) eqn:Hp; inversion H; subst. now constructor.
  - destruct (nullable r1) eqn:N.
    + inversion H as [ | | | ? ? ? HL | ? ? ? HR ]; subst.
      * inversion HL as [ | | ? ? s1 s2 Ha Hb | | ]; subst.
        change (String c (s1 ++ s2)) with (String c s1 ++ s2).
        constructor; auto.
      * change (String c s) with ("" ++ String c s).
        constructor; [now apply nullable_InLang | auto].
    + inversion H as [ | | ? ? s1 s2 Ha Hb | | ]; subst.
      change (String c (s1 ++ s2)) with (String c s1 ++ s2).
      constructor; auto.
  - inversion H; subst; [apply InAltL | apply InAltR]; auto.
Qed.

Lemma deriv_complete (c : ascii) (r : Regex) (w : string) :
  InLang r w -> forall s, w = String c s -> InLang (deriv c r) s.
Proof.
  induction 1 as [ | p c' Hp | r1 r2 s1 s2 H1 IH1 H2 IH2
                 | r1 r2 s' H IH | r1 r2 s' H IH ]; intros s E; simpl.
  - discriminate.
  - injection E as -> <-. rewrite Hp. constructor.
  - destruct s1 as [|x s1]; simpl in E.
    + rewrite (InLang_empty_nullable H1 eq_refl).
      apply InAltR. auto.
    + injection E as -> <-.
      destruct (nullable r1); [apply InAltL|]; constructor; auto.
  - apply InAltL. auto.
  - apply InAltR. auto.
Qed.

Lemma matches_InLang (s : string) :
  forall r, matches r s = true <-> InLang r s.
Proof.
  induction s as [|c s IH]; intros r; simpl.
  - split; [apply nullable_InLang | intros H; now apply InLang_empty_nullable with (s := "")].
  - rewrite IH. split.
    + apply deriv_sound.
    + intros H. now apply deriv_complete with (w := String c s).
Qed.

Lemma InLang_Seq_inv (r1 r2 : Regex) (s : string) :
  InLang (Seq r1 r2) s <-> exists s1 s2, s = s1 ++ s2 /\ InLang r1 s1 /\ InLang r2 s2.
Proof.
  split.
  - intros H. inversion H; subst. eauto.
  - intros (s1 & s2 & -> & H1 & H2). now constructor.
Qed.

Lemma InLang_Class_inv (p : ascii -> bool) (s : string) :
  InLang (Class p) s <-> exists c, s = String c "" /\ p c = true.
Proof.
  split.
  - intros H. inversion H; subst. eauto.
  - intros (c & -> & H). now constructor.
Qed.

Lemma InLang_Eps_inv (s : string) : InLang Eps s <-> s = "".
Proof.
  split; [intros H; now inversion H | intros ->; constructor].
Qed.

Lemma InLang_Alt_inv (r1 r2 : Regex) (s : string) :
  InLang (Alt r1 r2) s <-> InLang r1 s \/ InLang r2 s.
Proof.
  split.
  - intros H. inversion H; subst; auto.
  - intros [H | H]; [now apply InAltL | now apply InAltR].
Qed.

Lemma InLang_Rep_Class (p : ascii -> bool) (n : nat) :
  forall s, InLang (Rep n (Class p)) s <->
            String.length s = n /\ all_chars p s = true.
Proof.
  induction n as [|n IH]; intros s; simpl.
  - rewrite InLang_Eps_inv. split.
    + intros ->. auto.
    + intros [H _]. destruct s; [reflexivity | discriminate].
  - rewrite InLang_Seq_inv. split.
    + intros (s1 & s2 & -> & H1 & H2).
      apply InLang_Class_inv in H1 as (c & -> & Hc).
      apply IH in H2 as [L A]. simpl. rewrite Hc, A, L. auto.
    + intros [L A]. destruct s as [|c s]; [discriminate|].
      simpl in L, A. apply andb_true_iff in A as [Hc A].
      exists (String c ""), s. repeat split.
      * now constructor.
      * apply IH. split; [congruence | assumption].
Qed.

Lemma InLang_Lit (w : string) : forall s, InLang (Lit w) s <-> s = w.
Proof.
  induction w as [|c w IH]; intros s; simpl.
  - apply InLang_Eps_inv.
  - rewrite InLang_Seq_inv. split.
    + intros (s1 & s2 & -> & H1 & H2).
      apply InLang_Class_inv in H1 as (c' & -> & Hc).
      apply Ascii.eqb_eq in Hc as <-. apply IH in H2 as ->. reflexivity.
    + intros ->. exists (String c ""), w. repeat split.
      * constructor. apply Ascii.eqb_refl.
      * now apply IH.
Qed.

(** The pattern of the version check accepts exactly the strings of the
    form YYYY-MM-DD. *)
Lemma version_pattern_spec (v : string) :
  matches version_pattern v = true <-> YYYY_MM_DD v.
Proof.
  rewrite matches_InLang. unfold version_pattern, YYYY_MM_DD.
  split.
  - intros H.
    apply InLang_Seq_inv in H as (y & r1 & -> & Hy & H).
    apply InLang_Seq_inv in H as (d1 & r2 & -> & Hd1 & H).
    apply InLang_Seq_inv in H as (m & r3 & -> & Hm & H).
    apply InLang_Seq_inv in H as (d2 & d & -> & Hd2 & Hd).
    apply InLang_Lit in Hd1 as ->. apply InLang_Lit in Hd2 as ->.
    apply InLang_Rep_Class in Hy as [? ?].
    apply InLang_Rep_Class in Hm as [? ?].
    apply InLang_Rep_Class in Hd as [? ?].
    exists y, m, d. repeat split; assumption.
  - intros (y & m & d & -> & Ly & Ay & Lm & Am & Ld & Ad).
    constructor; [now apply InLang_Rep_Class|].
    constructor; [now apply InLang_Lit|].
    constructor; [now apply InLang_Rep_Class|].
    constructor; [now apply InLang_Lit | now apply InLang_Rep_Class].
Qed.

(** [validateToken] accepts exactly the two token formats. *)
Lemma validateToken_spec (t : string) :
  validateToken t = true <-> token_format t.
Proof.
  unfold validateToken. rewrite matches_InLang. unfold token_pattern, token_format.
  split.
  - intros H. apply InLang_Alt_inv in H as [HL | HR].
    + left. now apply InLang_Rep_Class.
    + right. apply InLang_Seq_inv in HR as (p & h & -> & Hp & Hh).
      apply (InLang_Lit "pco_tok_") in Hp as ->.
      apply InLang_Rep_Class in Hh as [? ?].
      exists h. auto.
  - intros [[L A] | (h & -> & L & A)].
    + apply InAltL. now apply InLang_Rep_Class.
    + apply InAltR.
      constructor; [now apply (InLang_Lit "pco_tok_") | now apply InLang_Rep_Class].
Qed.

(* ================================================================== *)
(** * Own properties: reading after writing *)

Section OwnPropertiesFacts.
Variable V : Type.
Implicit Types (l : list (string * V)) (k : string) (v : V).

Lemma own_has_get k l : own_has k l = true <-> exists v, own_get k l = Some v.
Proof.
  unfold own_has. destruct (own_get k l) as [v|].
  - split; eauto.
  - split; [discriminate | intros [v H]; discriminate].
Qed.

Lemma own_get_In k v l : own_get k l = Some v -> In (k, v) l.
Proof.
  induction l as [|[k0 v0] l IH]; simpl; [discriminate|].
  destruct (String.eqb_spec k0 k) as [-> | N].
  - intros [= ->]. now left.
  - intros H. right. auto.
Qed.

Lemma own_get_None_keys k l : own_get k l = None <-> ~ In k (map fst l).
Proof.
  induction l as [|[k0 v0] l IH]; simpl.
  - split; [intros _ [] | reflexivity].
  - destruct (String.eqb_spec k0 k) as [-> | N].
    + split; [discriminate | intros H; exfalso; apply H; now left].
    + rewrite IH. split.
      * intros H [E | E]; [now apply N | now apply H].
      * intros H E. apply H. now right.
Qed.


Lemma own_replace_keys k v l :
  map fst (own_replace k v l) = map fst l.
Proof.
  induction l as [|[k0 v0] l IH]; simpl; [reflexivity|].
  destruct (String.eqb_spec k0 k) as [-> | _]; simpl; [reflexivity | now rewrite IH].
Qed.

Lemma own_get_replace k k' v l :
  own_get k (own_replace k' v l)
  = if k' =? k then (if own_has k' l then Some v else None) else own_get k l.
Proof.
  unfold own_has.
  induction l as [|[k0 v0] l IH]; simpl.
  - now destruct (k' =? k).
  - destruct (String.eqb_spec k0 k') as [-> | N]; simpl.
    + destruct (String.eqb_spec k' k); reflexivity.
    + rewrite IH. destruct (String.eqb_spec k' k) as [-> | N'].
      * destruct (String.eqb_spec k0 k); [contradiction | reflexivity].
      * reflexivity.
Qed.

Lemma own_insert_index_keys i k v l x :
  In x (map fst (own_insert_index i k v l)) <-> x = k \/ In x (map fst l).
Proof.
  induction l as [|[k0 v0] l IH]; simpl.
  - intuition.
  - destruct (array_index k0) as [j|]; [destruct (j <? i)%N|]; simpl;
      rewrite ?IH; intuition.
Qed.

Lemma own_insert_index_NoDup i k v l :
  ~ In k (map fst l) -> NoDup (map fst l) ->
  NoDup (map fst (own_insert_index i k v l)).
Proof.
  induction l as [|[k0 v0] l IH]; simpl; intros N D.
  - constructor; [intros [] | constructor].
  - inversion D as [|? ? N0 D0]; subst.
    destruct (array_index k0) as [j|]; [destruct (j <? i)%N|]; simpl.
    + constructor.
      * rewrite own_insert_index_keys. intros [-> | H]; [apply N; now left | contradiction].
      * apply IH; [intros H; apply N; now right | assumption].
    + constructor; assumption.
    + constructor; assumption.
Qed.

Lemma own_get_insert_index i k k' v l :
  own_get k' l = None ->
  own_get k (own_insert_index i k' v l) = if k' =? k then Some v else own_get k l.
Proof.
  induction l as [|[k0 v0] l IH]; simpl; [reflexivity|].
  destruct (String.eqb_spec k0 k') as [-> | N]; [discriminate|]. intros H.
  destruct (array_index k0) as [j|]; [destruct (j <? i)%N|]; simpl; try reflexivity.
  rewrite IH by assumption.
  destruct (String.eqb_spec k0 k) as [-> | _]; [|reflexivity].
  destruct (String.eqb_spec k' k) as [-> | _]; [contradiction | reflexivity].
Qed.

Lemma own_get_app k l1 l2 :
  own_get k (l1 ++ l2)%list
  = match own_get k l1 with Some v => Some v | None => own_get k l2 end.
Proof.
  induction l1 as [|[k0 v0] l1 IH]; simpl; [reflexivity|].
  now destruct (k0 =? k).
Qed.

(** Reading a key after a write: the written value at the written key, the
    old value elsewhere. *)
Lemma own_get_define k k' v l :
  own_get k (own_define k' v l) = if k' =? k then Some v else own_get k l.
Proof.
  unfold own_define. destruct (own_has k' l) eqn:Hh.
  - rewrite own_get_replace, Hh. reflexivity.
  - assert (own_get k' l = None) as Hn.
    { unfold own_has in Hh. now destruct (own_get k' l). }
    destruct (array_index k') as [i|].
    + now apply own_get_insert_index.
    + rewrite own_get_app. simpl.
      destruct (String.eqb_spec k' k) as [-> | _].
      * now rewrite Hn.
      * now destruct (own_get k l).
Qed.

Lemma own_define_NoDup k v l :
  NoDup (map fst l) -> NoDup (map fst (own_define k v l)).
Proof.
  intros D. unfold own_define. destruct (own_has k l) eqn:Hh.
  - now rewrite own_replace_keys.
  - assert (~ In k (map fst l)) as N.
    { apply own_get_None_keys. unfold own_has in Hh. now destruct (own_get k l). }
    destruct (array_index k) as [i|].
    + now apply own_insert_index_NoDup.
    + rewrite map_app. simpl.
      apply NoDup_app; [assumption | constructor; [intros [] | constructor] |].
      intros x Hx [<- | []]. contradiction.
Qed.

Lemma spread_NoDup (src dst : list (string * V)) :
  NoDup (map fst dst) -> NoDup (map fst (spread src dst)).
Proof.
  revert dst. induction src as [|[k v] src IH]; simpl; intros dst D; [assumption|].
  apply IH. now apply own_define_NoDup.
Qed.

Lemma own_get_spread_other k (src dst : list (string * V)) :
  ~ In k (map fst src) -> own_get k (spread src dst) = own_get k dst.
Proof.
  revert dst. induction src as [|[k0 v0] src IH]; simpl; intros dst N; [reflexivity|].
  unfold spread in *. simpl. rewrite IH by tauto.
  rewrite own_get_define.
  destruct (String.eqb_spec k0 k) as [-> | _]; [exfalso; apply N; now left | reflexivity].
Qed.

(** A spread copies every property of an object. *)
Lemma own_get_spread k v (src dst : list (string * V)) :
  NoDup (map fst src) -> own_get k src = Some v ->
  own_get k (spread src dst) = Some v.
Proof.
  revert dst. induction src as [|[k0 v0] src IH]; simpl; intros dst D H; [discriminate|].
  inversion D as [|? ? N D']; subst.
  unfold spread in *. simpl.
  destruct (String.eqb_spec k0 k) as [-> | _].
  - injection H as ->.
    fold (spread src (own_define k v dst)).
    rewrite own_get_spread_other by assumption.
    rewrite own_get_define. now rewrite String.eqb_refl.
  - now apply IH.
Qed.
End OwnPropertiesFacts.

(* ================================================================== *)
(** * The constructor *)



Lemma constructor_version_accepted (config : Config.t) :
  version_accepted config ->
  constructor_version config
  = Ok (match Config.version config with
        | Some v => if truthy v then Some v else None
        | None => None
        end).
Proof.
  unfold version_accepted, constructor_version.
  destruct (Config.version config) as [v|]; [|reflexivity].
  intros [-> | H]; [reflexivity|].
  apply version_pattern_spec in H. rewrite H. simpl.
  destruct (truthy v); reflexivity.
Qed.


Lemma constructor_version_value (config : Config.t) (x : option string) :
  constructor_version config = Ok x ->
  x = None \/ exists v, x = Some v /\ Config.version config = Some v /\
                        YYYY_MM_DD v.
Proof.
  unfold constructor_version.
  destruct (Config.version config) as [v|]; [|intros [= <-]; now left].
  destruct (truthy v); [|intros [= <-]; now left].
  destruct (matches version_pattern v) eqn:M; simpl; [|discriminate].
  intros [= <-]. right. exists v. repeat split. now apply version_pattern_spec.
Qed.



(** What a constructed client holds. *)
Lemma constructor_Ok (config : Config.t) (c : PcoClient) :
  constructor config = Ok c ->
  exists v a,
    constructor_version config = Ok v /\
    constructor_authentication config = Ok a /\
    c = {| customApiBaseUrl := Config.customApiBaseUrl config;
           version := v;
           authentication := a;
           includes := [];
           filters := Filters.empty;
           order := default_order;
           pagination := default_pagination |}.
Proof.
  unfold constructor, bind.
  destruct (constructor_version config) as [v|e]; [|discriminate].
  destruct (constructor_authentication config) as [a|e]; [|discriminate].
  intros [= <-]. eauto.
Qed.

(* ================================================================== *)
(** * Calls leave the configuration of the client alone *)

Lemma call_frame (m : Call) (this : PcoClient) :
  version (call m this) = version this /\
  authentication (call m this) = authentication this /\
  customApiBaseUrl (call m this) = customApiBaseUrl this.
Proof. destruct m; simpl; auto. Qed.

Lemma chain_frame (calls : list Call) :
  forall this,
    version (chain calls this) = version this /\
    authentication (chain calls this) = authentication this /\
    customApiBaseUrl (chain calls this) = customApiBaseUrl this.
Proof.
  induction calls as [|m calls IH]; intros this; [simpl; auto|].
  unfold chain in *. simpl.
  destruct (IH (call m this)) as (-> & -> & ->).
  apply call_frame.
Qed.

(* ================================================================== *)
(** * The headers of a request *)

Lemma request_options_NoDup (this : PcoClient) (options : RequestInit.t) :
  NoDup (map fst (RequestInit.headers options)) ->
  NoDup (map fst (RequestInit.headers (request_options this options))).
Proof.
  intros D. unfold request_options.
  destruct (version this) as [v|]; [|assumption].
  destruct (truthy v); [|assumption]. simpl.
  apply own_define_NoDup, spread_NoDup. constructor.
Qed.

Lemma authorization_header (this : PcoClient) (endpoint : string) (options : RequestInit.t) :
  header "Authorization" (request_call this endpoint options)
  = Some (authentication this).
Proof.
  unfold header, request_call. simpl.
  rewrite own_get_define. reflexivity.
Qed.



(* ================================================================== *)
(** * The builder is reset by [buildQuery] *)



(* ================================================================== *)
(** * The version of the API *)





(* ================================================================== *)
(** * Authentication *)

(** C3, as stated, fails: the version is checked before the token, so an
    OAuth configuration whose token has the legacy format does not construct
    when its version is malformed, and a malformed token next to a malformed
    version is reported as [Invalid version format]. *)
Lemma oauth_claim_counterexample :
  validateToken legacy_token = true /\
  constructor (oauth_config legacy_token (Some "v2"))
  = Throw (Error "Invalid version format") /\
  validateToken "not-a-token" = false /\
  constructor (oauth_config "not-a-token" (Some "v2"))
  = Throw (Error "Invalid version format").
Proof. vm_compute. repeat split. Qed.

(** C3, amended. For an OAuth configuration (a [token] and no
    [personalAccessToken]) whose version passes the version check (absent,
    empty or YYYY-MM-DD), construction succeeds exactly when the token is 64
    hexadecimal digits or [pco_tok_] followed by 72 hexadecimal digits; for
    any other token it throws [Invalid token format]. On success the
    [Authorization] header of every request is [Bearer ] followed by the
    token. *)
Theorem oauth_token_checked (config : Config.t) (token : string)
  (Hpat : Config.personalAccessToken config = None)
  (Htok : Config.token config = Some token)
  (Hver : version_accepted config) :
  (succeeds (constructor config) <-> token_format token) /\
  (~ token_format token ->
   constructor config = Throw (Error "Invalid token format")) /\
  (forall c, constructor config = Ok c ->
     authentication c = "Bearer " ++ token /\
     forall calls endpoint options,
       header "Authorization" (request_call (chain calls c) endpoint options)
       = Some ("Bearer " ++ token)).
Proof.
  assert (constructor_authentication config
          = if validateToken token then Ok ("Bearer " ++ token)
            else Throw (Error "Invalid token format")) as Ha.
  { unfold constructor_authentication. rewrite Hpat, Htok.
    now destruct (validateToken token). }
  assert (forall c, constructor config = Ok c -> authentication c = "Bearer " ++ token)
    as Hauth.
  { intros c Hc. apply constructor_Ok in Hc as (v & a & _ & Ha' & ->). simpl.
    rewrite Ha in Ha'. destruct (validateToken token); [|discriminate].
    now injection Ha' as <-. }
  split; [|split].
  - rewrite <- validateToken_spec. unfold succeeds, constructor.
    rewrite (constructor_version_accepted _ Hver), Ha.
    destruct (validateToken token); simpl; split; eauto; try discriminate.
    intros [c H]. discriminate.
  - intros Hf. unfold constructor.
    rewrite (constructor_version_accepted _ Hver), Ha.
    destruct (validateToken token) eqn:E; [|reflexivity].
    apply validateToken_spec in E. contradiction.
  - intros c Hc. split; [auto|].
    intros calls endpoint options. rewrite authorization_header.
    destruct (chain_frame calls c) as (_ & -> & _).
    now rewrite (Hauth c Hc).
Qed.

Lemma legacy_token_format : token_format legacy_token.
Proof. left. split; reflexivity. Defined.

(** The amended C3 at an OAuth configuration with a legacy token and no
    version. *)
Lemma oauth_token_checked_witness :
  Config.personalAccessToken (oauth_config legacy_token None) = None /\
  Config.token (oauth_config legacy_token None) = Some legacy_token /\
  version_accepted (oauth_config legacy_token None) /\
  succeeds (constructor (oauth_config legacy_token None)).
Proof.
  split; [reflexivity|]. split; [reflexivity|]. split; [exact I|].
  destruct (@oauth_token_checked (oauth_config legacy_token None) legacy_token
              eq_refl eq_refl I) as [H _].
  apply H. exact legacy_token_format.
Defined.



(* ================================================================== *)
(** * Responses *)

(** C4, as stated, fails: a response with a 2xx status whose body is not
    JSON (here 204 No Content, with an empty body) makes [request] fail
    although the status is 2xx. *)
Lemma request_claim_counterexample :
  let response :=
    {| Response.status := 204; Response.statusText := "No Content";
       Response.json := Throw (SyntaxError "Unexpected end of JSON input") |} in
  Response.ok response = true /\
  request (always response) (fresh_client "Bearer t" None) "/people/v2/people/1"
    RequestInit.empty
  = Throw (SyntaxError "Unexpected end of JSON input").
Proof. vm_compute. split; reflexivity. Qed.

(** C4, amended. When the transport answers the call of [request] with a
    response:
    - if the status is not 2xx, [request] fails with an error whose message
      includes the numeric status code (and the status text);
    - if the status is 2xx, [request] settles as [response.json()] does: it
      resolves to the parsed body, unchanged, when the body is JSON, and
      fails as [response.json()] fails otherwise.
    A 404 response gives an error whose message contains [404], and a 200
    response with the body [{"data":[],"meta":{"total_count":0}}] makes
    [getPerson] resolve to exactly that object. When the transport itself
    fails, its failure is passed on. *)
Theorem request_outcome (fetch : FetchCall -> Result Response.t)
  (this : PcoClient) (endpoint : string) (options : RequestInit.t)
  (response : Response.t)
  (Hfetch : fetch (request_call this endpoint options) = Ok response) :
  (Response.status response < 200 \/ 299 < Response.status response ->
   request fetch this endpoint options = Throw (Error (request_failed response)) /\
   Contains (number_to_string (Response.status response)) (request_failed response) /\
   Contains (Response.statusText response) (request_failed response)) /\
  (200 <= Response.status response <= 299 ->
   request fetch this endpoint options = Response.json response) /\
  (forall body,
     200 <= Response.status response <= 299 -> Response.json response = Ok body ->
     request fetch this endpoint options = Ok body) /\
  (forall (client : PcoClient) (statusText : string) (json : Result Json),
     exists message,
       request (always {| Response.status := 404; Response.statusText := statusText;
                          Response.json := json |})
         client endpoint options = Throw (Error message) /\
       Contains "404" message) /\
  (forall client : PcoClient,
     fst (getPerson (always {| Response.status := 200; Response.statusText := "OK";
                               Response.json := Ok empty_people |}) client)
     = Ok empty_people) /\
  (forall (failing : FetchCall -> Result Response.t) (e : Exn),
     failing (request_call this endpoint options) = Throw e ->
     request failing this endpoint options = Throw e).
Proof.
  assert (200 <= Response.status response <= 299 ->
          request fetch this endpoint options = Response.json response) as Hok.
  { intros H. unfold request, bind. rewrite Hfetch.
    assert (Response.ok response = true) as ->; [|reflexivity].
    unfold Response.ok. apply andb_true_iff. split; apply Z.leb_le; lia. }
  split; [|split; [|split; [|split; [|split]]]].
  - intros H. unfold request, bind. rewrite Hfetch.
    assert (Response.ok response = false) as ->.
    { unfold Response.ok. apply andb_false_iff.
      destruct H as [H | H]; [left | right]; apply Z.leb_gt; lia. }
    cbn [negb]. split; [reflexivity|]. unfold request_failed. split.
    + apply Contains_app_l, Contains_here.
    + do 3 apply Contains_app_l. apply Contains_here.
  - exact Hok.
  - intros body H Hjson. now rewrite Hok.
  - intros client statusText json. unfold request, always, bind. cbn [negb].
    eexists. split; [reflexivity|]. unfold request_failed.
    apply Contains_app_l. apply (Contains_here "404").
  - intros client. reflexivity.
  - intros failing e H. unfold request, bind. now rewrite H.
Qed.

(** The amended C4 at a transport that always answers 500. *)
Lemma request_outcome_witness :
  let response :=
    {| Response.status := 500; Response.statusText := "Internal Server Error";
       Response.json := Ok JNull |} in
  request (always response) (fresh_client "Bearer t" None) "/people/v2/people"
    RequestInit.empty
  = Throw (Error (request_failed response)) /\
  Contains "500" (request_failed response) /\
  Contains "Internal Server Error" (request_failed response).
Proof.
  cbv zeta.
  destruct (@request_outcome
              (always {| Response.status := 500;
                         Response.statusText := "Internal Server Error";
                         Response.json := Ok JNull |})
              (fresh_client "Bearer t" None) "/people/v2/people" RequestInit.empty
              _ eq_refl) as [H _].
  apply H. right. reflexivity.
Defined.

(* ================================================================== *)
(** * The query string *)

Lemma buildQuery_loop (entries : list (string * Filters.property)) :
  forall query,
    fold_left buildQuery_step entries query
    = query ++ concat_all (map entry_segment entries).
Proof.
  induction entries as [|e entries IH]; intros query; cbn [fold_left map concat_all].
  - now rewrite append_empty_r.
  - rewrite IH. unfold buildQuery_step, entry_segment, where_segment. cbv zeta.
    now rewrite !append_assoc.
Qed.

(** The loop of [buildQuery] writes the grammar of the query string. *)
Lemma buildQuery_query_string (this : PcoClient) :
  fst (buildQuery this)
  = query_string (includes this)
      (map entry_segment (Filters.enumerate (filters this)))
      (order this) (pagination this).
Proof.
  unfold buildQuery, query_string. cbn [fst].
  rewrite buildQuery_loop. now rewrite !append_assoc.
Qed.

Lemma enumerate_default_prototype (o : Filters.t) :
  Filters.proto o = None ->
  map entry_segment (Filters.enumerate o) = map filter_segment (Filters.own o).
Proof.
  intros H. unfold Filters.enumerate. rewrite H, app_nil_r, map_map.
  apply map_ext. intros [k f]. reflexivity.
Qed.

(** The part of the query string after the includes begins a new
    parameter. *)
Lemma query_string_after_includes (segments : list string) (rest : string) :
  (forall s, In s segments -> exists t, s = "&" ++ t) ->
  exists t, concat_all segments ++ "&order=" ++ rest = "&" ++ t.
Proof.
  destruct segments as [|s segments]; intros H.
  - now exists ("order=" ++ rest).
  - destruct (H s (or_introl eq_refl)) as [t ->].
    exists (t ++ concat_all segments ++ "&order=" ++ rest).
    cbn [concat_all]. now rewrite !append_assoc.
Qed.

Lemma entry_segment_ampersand (entries : list (string * Filters.property)) (s : string) :
  In s (map entry_segment entries) -> exists t, s = "&" ++ t.
Proof.
  intros H. apply in_map_iff in H as (e & <- & _).
  unfold entry_segment, where_segment. eexists. reflexivity.
Qed.

Lemma Contains_order (this : PcoClient) :
  Contains ("order=" ++ Order.symbol (order this) ++ Order.field (order this))
    (fst (buildQuery this)).
Proof.
  rewrite buildQuery_query_string. unfold query_string.
  do 3 apply Contains_app_l.
  change ("&order=" ++ ?x) with ("&" ++ "order=" ++ x).
  apply Contains_app_l.
  eexists "", _. rewrite !append_assoc. reflexivity.
Qed.

Lemma Contains_pagination (this : PcoClient) :
  Contains ("limit=" ++ number_to_string (Pagination.limit (pagination this))
            ++ "&offset=" ++ number_to_string (Pagination.offset (pagination this)))
    (fst (buildQuery this)).
Proof.
  rewrite buildQuery_query_string. unfold query_string.
  do 6 apply Contains_app_l.
  change ("&limit=" ++ ?x) with ("&" ++ "limit=" ++ x).
  apply Contains_app_l, Contains_refl.
Qed.

Lemma prefix_app (sub post : string) : String.prefix sub (sub ++ post) = true.
Proof.
  induction sub as [|c sub IH]; simpl.
  - now destruct post.
  - destruct (ascii_dec c c) as [_ | N]; [exact IH | now elim N].
Qed.

Lemma Contains_occurs (sub s : string) : Contains sub s -> occurs sub s = true.
Proof.
  intros (pre & post & ->).
  induction pre as [|c pre IH].
  - cbn [append]. destruct (sub ++ post) eqn:E; cbn [occurs];
      rewrite <- E, prefix_app; reflexivity.
  - cbn [append occurs]. rewrite IH. apply orb_true_r.
Qed.

(* ================================================================== *)
(** * Filters *)

Lemma Filters_set_field (field : string) (f : Filter.t) (o : Filters.t) :
  field <> "__proto__" ->
  Filters.set field f o
  = {| Filters.own := own_define field f (Filters.own o);
       Filters.proto := Filters.proto o |}.
Proof.
  intros H. unfold Filters.set.
  destruct (String.eqb_spec field "__proto__"); [contradiction | reflexivity].
Qed.

Lemma own_replace_absent (V : Type) (k : string) (v : V) (l : list (string * V)) :
  own_get k l = None -> own_replace k v l = l.
Proof.
  induction l as [|[k0 v0] l IH]; simpl; [reflexivity|].
  destruct (String.eqb_spec k0 k); [discriminate|].
  intros H. now rewrite IH.
Qed.

Lemma own_replace_twice (V : Type) (k : string) (v1 v2 : V) (l : list (string * V)) :
  own_replace k v2 (own_replace k v1 l) = own_replace k v2 l.
Proof.
  induction l as [|[k0 v0] l IH]; simpl; [reflexivity|].
  destruct (String.eqb_spec k0 k) as [-> | N]; simpl.
  - now rewrite String.eqb_refl.
  - destruct (String.eqb_spec k0 k); [contradiction|]. now rewrite IH.
Qed.

Lemma own_replace_insert_index (V : Type) (i : N) (k : string) (v1 v2 : V)
  (l : list (string * V)) :
  own_get k l = None ->
  own_replace k v2 (own_insert_index i k v1 l) = own_insert_index i k v2 l.
Proof.
  induction l as [|[k0 v0] l IH]; simpl.
  - now rewrite String.eqb_refl.
  - destruct (String.eqb_spec k0 k) as [-> | N]; [discriminate|]. intros H.
    destruct (array_index k0) as [j|]; [destruct (j <? i)%N|]; simpl;
      rewrite ?String.eqb_refl; try reflexivity.
    destruct (String.eqb_spec k0 k); [contradiction|]. now rewrite IH.
Qed.

Lemma own_replace_app (V : Type) (k : string) (v1 v2 : V) (l : list (string * V)) :
  own_get k l = None ->
  own_replace k v2 (l ++ [(k, v1)])%list = (l ++ [(k, v2)])%list.
Proof.
  induction l as [|[k0 v0] l IH]; simpl.
  - now rewrite String.eqb_refl.
  - destruct (String.eqb_spec k0 k); [discriminate|]. intros H. now rewrite IH.
Qed.

Lemma own_define_empty (V : Type) (k : string) (v : V) :
  own_define k v [] = [(k, v)].
Proof. unfold own_define. simpl. now destruct (array_index k). Qed.

(** Writing a key twice is writing the second value once. *)
Lemma own_define_twice (V : Type) (k : string) (v1 v2 : V) (l : list (string * V)) :
  own_define k v2 (own_define k v1 l) = own_define k v2 l.
Proof.
  assert (own_has k (own_define k v1 l) = true) as H1.
  { unfold own_has. now rewrite own_get_define, String.eqb_refl. }
  unfold own_define at 1. rewrite H1.
  unfold own_define. destruct (own_has k l) eqn:Hh.
  - apply own_replace_twice.
  - assert (own_get k l = None) as Hn.
    { unfold own_has in Hh. now destruct (own_get k l). }
    destruct (array_index k) as [i|].
    + now apply own_replace_insert_index.
    + now apply own_replace_app.
Qed.

Lemma own_enumerated (o : Filters.t) (k : string) (f : Filter.t) :
  In (k, f) (Filters.own o) ->
  In (filter_segment (k, f)) (map entry_segment (Filters.enumerate o)).
Proof.
  intros H. unfold Filters.enumerate. rewrite map_app, map_map. apply in_or_app. left.
  apply in_map_iff. exists (k, f). split; [reflexivity | assumption].
Qed.

(** Every stored filter has its segment in the query string. *)
Lemma stored_filter_in_query (this : PcoClient) (k : string) (f : Filter.t) :
  In (k, f) (Filters.own (filters this)) ->
  Contains (filter_segment (k, f)) (fst (buildQuery this)).
Proof.
  intros H. rewrite buildQuery_query_string. unfold query_string.
  do 2 apply Contains_app_l. apply Contains_app_r.
  apply Contains_concat_all. now apply own_enumerated.
Qed.

Lemma call_pagination (m : Call) (this : PcoClient) :
  is_paginate m = false ->
  pagination this = default_pagination ->
  pagination (call m this) = default_pagination.
Proof. destruct m; simpl; intros; auto; discriminate. Qed.

Lemma chain_pagination (calls : list Call) :
  forall this,
    forallb (fun m => negb (is_paginate m)) calls = true ->
    pagination this = default_pagination ->
    pagination (chain calls this) = default_pagination.
Proof.
  induction calls as [|m calls IH]; intros this H D; [exact D|].
  simpl in H. apply andb_true_iff in H as [Hm H].
  unfold chain in *. simpl. apply IH; [assumption|].
  apply call_pagination; [|assumption].
  now destruct (is_paginate m).
Qed.

(* ================================================================== *)
(** * The builder methods and the query string *)

(** C5. [orderBy(field, 'asc')] sets the symbol [-], [orderBy(field,
    'desc')] and [orderBy(field)] set the empty symbol; so after
    [orderBy('created_at', 'asc')] the query string contains
    [order=-created_at], and after [orderBy('created_at', 'desc')] it
    contains [order=created_at] (with no dash before the field, as the
    query of a client that holds nothing else shows). *)
Theorem orderBy_symbol (field : string) (this : PcoClient) :
  order (orderBy field (Some asc) this)
  = {| Order.field := field; Order.symbol := "-" |} /\
  order (orderBy field (Some desc) this)
  = {| Order.field := field; Order.symbol := "" |} /\
  orderBy field None this = orderBy field (Some desc) this /\
  Contains ("order=-" ++ field) (fst (buildQuery (orderBy field (Some asc) this))) /\
  Contains ("order=" ++ field) (fst (buildQuery (orderBy field (Some desc) this))) /\
  Contains "order=-created_at"
    (fst (buildQuery (orderBy "created_at" (Some asc) this))) /\
  Contains "order=created_at"
    (fst (buildQuery (orderBy "created_at" (Some desc) this))) /\
  fst (buildQuery (orderBy "created_at" (Some asc) (snd (buildQuery this))))
  = "?include=&order=-created_at&limit=10&offset=0" /\
  fst (buildQuery (orderBy "created_at" (Some desc) (snd (buildQuery this))))
  = "?include=&order=created_at&limit=10&offset=0".
Proof.
  assert (forall f, Contains ("order=-" ++ f)
                      (fst (buildQuery (orderBy f (Some asc) this)))) as Hasc.
  { intros f. exact (Contains_order (orderBy f (Some asc) this)). }
  assert (forall f, Contains ("order=" ++ f)
                      (fst (buildQuery (orderBy f (Some desc) this)))) as Hdesc.
  { intros f. exact (Contains_order (orderBy f (Some desc) this)). }
  repeat split.
  - apply Hasc.
  - apply Hdesc.
  - apply (Hasc "created_at").
  - apply (Hdesc "created_at").
Qed.

(** C6. A second [include] replaces the list of the first, it does not add
    to it: the client is as if the first call had not been made, and the
    query string begins with the second list alone; after
    [include(['emails'])] and [include(['phone_numbers'])] its include
    parameter is [include=phone_numbers], followed by the next parameter. *)
Theorem include_replaces (first second : list string) (this : PcoClient) :
  includes (include second (include first this)) = second /\
  include second (include first this) = include second this /\
  (exists rest,
     fst (buildQuery (include second (include first this)))
     = "?include=" ++ join "," second ++ "&" ++ rest) /\
  (exists rest,
     fst (buildQuery (include ["phone_numbers"] (include ["emails"] this)))
     = "?include=phone_numbers&" ++ rest) /\
  fst (buildQuery (include ["phone_numbers"] (include ["emails"] (snd (buildQuery this)))))
  = "?include=phone_numbers&order=created_at&limit=10&offset=0".
Proof.
  assert (forall l c, exists rest,
             fst (buildQuery (include l c)) = "?include=" ++ join "," l ++ "&" ++ rest)
    as H.
  { intros l c. rewrite buildQuery_query_string. unfold query_string.
    destruct (@query_string_after_includes
                (map entry_segment (Filters.enumerate (filters (include l c))))
                (Order.symbol (order (include l c)) ++ Order.field (order (include l c))
                 ++ "&limit="
                 ++ number_to_string (Pagination.limit (pagination (include l c)))
                 ++ "&offset="
                 ++ number_to_string (Pagination.offset (pagination (include l c)))))
      as [rest E].
    { apply entry_segment_ampersand. }
    exists rest. cbn [includes include]. now rewrite E. }
  split; [reflexivity|]. split; [reflexivity|]. split; [apply H|].
  split; [|reflexivity].
  destruct (H ["phone_numbers"] (include ["emails"] this)) as [rest E].
  exists rest. exact E.
Qed.

(** C8. After [paginate(limit, offset)] the query string contains
    [limit=<limit>&offset=<offset>], so [limit=25&offset=50] after
    [paginate(25, 50)]; and when [paginate] has not been called since the
    builder was last reset (by [buildQuery], or by the constructor),
    whatever else has been called, it contains [limit=10&offset=0]. *)
Theorem paginate_query (limit offset : Z) (this : PcoClient) :
  Contains ("limit=" ++ number_to_string limit ++ "&offset=" ++ number_to_string offset)
    (fst (buildQuery (paginate limit offset this))) /\
  Contains "limit=25&offset=50" (fst (buildQuery (paginate 25 50 this))) /\
  (forall calls,
     forallb (fun m => negb (is_paginate m)) calls = true ->
     Contains "limit=10&offset=0"
       (fst (buildQuery (chain calls (snd (buildQuery this)))))) /\
  (forall config c calls,
     constructor config = Ok c ->
     forallb (fun m => negb (is_paginate m)) calls = true ->
     Contains "limit=10&offset=0" (fst (buildQuery (chain calls c)))).
Proof.
  assert (forall c, pagination c = default_pagination ->
                    Contains "limit=10&offset=0" (fst (buildQuery c))) as Hdef.
  { intros c Hc. pose proof (Contains_pagination c) as H. now rewrite Hc in H. }
  split; [|split; [|split]].
  - exact (Contains_pagination (paginate limit offset this)).
  - exact (Contains_pagination (paginate 25 50 this)).
  - intros calls Hcalls. apply Hdef, chain_pagination; [assumption | reflexivity].
  - intros config c calls Hc Hcalls. apply Hdef, chain_pagination; [assumption|].
    apply constructor_Ok in Hc as (v & a & _ & _ & ->). reflexivity.
Qed.

(** C9. The string that [buildQuery] returns is exactly [?include=], the
    includes joined by commas (nothing when there are none, so that the
    string begins [?include=&]), one segment [&where[<field>]<operator><value>]
    for each key that the loop over the filters visits, in that order,
    [&order=<symbol><field>] and [&limit=<limit>&offset=<offset>]. With the
    default prototype the keys visited are those of the stored filters.
    Nothing is encoded or escaped: a field, an operator and a value are
    copied as they are, [&], [=] and spaces included. *)
Theorem buildQuery_exact (this : PcoClient) :
  fst (buildQuery this)
  = "?include=" ++ join "," (includes this)
    ++ concat_all (map entry_segment (Filters.enumerate (filters this)))
    ++ "&order=" ++ Order.symbol (order this) ++ Order.field (order this)
    ++ "&limit=" ++ number_to_string (Pagination.limit (pagination this))
    ++ "&offset=" ++ number_to_string (Pagination.offset (pagination this)) /\
  (includes this = [] -> exists rest, fst (buildQuery this) = "?include=&" ++ rest) /\
  (Filters.proto (filters this) = None ->
   map entry_segment (Filters.enumerate (filters this))
   = map (fun kf => "&where[" ++ fst kf ++ "]" ++ Filter.operator (snd kf)
                    ++ to_string (Filter.value (snd kf)))
       (Filters.own (filters this))) /\
  (forall field operator value,
     field <> "__proto__" ->
     fst (buildQuery (where_ field operator (SStr value) (snd (buildQuery this))))
     = "?include=&where[" ++ field ++ "]" ++ operator ++ value
       ++ "&order=created_at&limit=10&offset=0") /\
  fst (buildQuery (where_ "q" "=" (SStr "a&b=c d") (snd (buildQuery this))))
  = "?include=&where[q]=a&b=c d&order=created_at&limit=10&offset=0".
Proof.
  split; [apply buildQuery_query_string|]. split; [|split; [|split]].
  - intros Hi. rewrite buildQuery_query_string. unfold query_string. rewrite Hi.
    destruct (@query_string_after_includes
                (map entry_segment (Filters.enumerate (filters this)))
                (Order.symbol (order this) ++ Order.field (order this)
                 ++ "&limit=" ++ number_to_string (Pagination.limit (pagination this))
                 ++ "&offset=" ++ number_to_string (Pagination.offset (pagination this))))
      as [rest E].
    { apply entry_segment_ampersand. }
    exists rest. cbn [join String.concat]. now rewrite E.
  - apply enumerate_default_prototype.
  - intros field operator value Hfield.
    rewrite buildQuery_query_string. unfold query_string.
    cbn [where_ snd buildQuery includes filters order pagination].
    rewrite Filters_set_field by assumption.
    unfold Filters.enumerate, Filters.empty.
    cbn [Filters.own Filters.proto]. rewrite own_define_empty.
    cbn. rewrite append_empty_r, append_assoc. cbn. now rewrite append_assoc.
  - reflexivity.
Qed.

(* ================================================================== *)
(** * [where] *)

(** C7 at the field [__proto__]. The assignment [this.filters[field] =
    { operator, value }] stores no filter under that field: it replaces the
    prototype of the filters object. The loop of [buildQuery] then visits
    the inherited keys [operator] and [value], whose values are not filter
    objects, and the query string has two segments that name neither the
    field nor the operator nor the value, and no segment for the field. *)
Theorem where_proto_field (operator : string) (value : Scalar) (this : PcoClient) :
  Filters.own (filters (where_ "__proto__" operator value this))
  = Filters.own (filters this) /\
  (let this' :=
     where_ "__proto__" "=" (SStr "a@example.com") (fresh_client "Bearer t" None) in
   Filters.own (filters this') = [] /\
   fst (buildQuery this')
   = "?include=&where[operator]undefinedundefined&where[value]undefinedundefined&order=created_at&limit=10&offset=0" /\
   ~ Contains "where[__proto__]=a@example.com" (fst (buildQuery this'))).
Proof.
  split; [reflexivity|]. cbv zeta. split; [reflexivity|]. split; [reflexivity|].
  intros H. apply Contains_occurs in H. vm_compute in H. discriminate.
Qed.

(** [where] on any field but [__proto__]: the filter is stored under the
    field; a later [where] on the same field overwrites the earlier one and
    other fields keep their filters; [buildQuery] emits the segment
    [&where[<field>]<operator><value>] of every stored filter, so that
    [where('search_name_or_email', '=', 'a@example.com')] gives a query
    string containing [where[search_name_or_email]=a@example.com]. *)
Theorem where_sets_filter (field operator : string) (value : Scalar) (this : PcoClient)
  (Hfield : field <> "__proto__") :
  own_get field (Filters.own (filters (where_ field operator value this)))
  = Some {| Filter.operator := operator; Filter.value := value |} /\
  (forall operator' value',
     where_ field operator value (where_ field operator' value' this)
     = where_ field operator value this) /\
  (forall other, other <> field ->
     own_get other (Filters.own (filters (where_ field operator value this)))
     = own_get other (Filters.own (filters this))) /\
  Contains ("&where[" ++ field ++ "]" ++ operator ++ to_string value)
    (fst (buildQuery (where_ field operator value this))) /\
  (forall k f,
     In (k, f) (Filters.own (filters this)) ->
     Contains ("&where[" ++ k ++ "]" ++ Filter.operator f ++ to_string (Filter.value f))
       (fst (buildQuery this))) /\
  Contains "where[search_name_or_email]=a@example.com"
    (fst (buildQuery
            (where_ "search_name_or_email" "=" (SStr "a@example.com") this))).
Proof.
  assert (forall f o v c, f <> "__proto__" ->
            own_get f (Filters.own (filters (where_ f o v c)))
            = Some {| Filter.operator := o; Filter.value := v |}) as Hget.
  { intros f o v c Hf. cbn [where_ filters]. rewrite Filters_set_field by assumption.
    cbn [Filters.own]. now rewrite own_get_define, String.eqb_refl. }
  assert (forall f o v c, f <> "__proto__" ->
            Contains ("&where[" ++ f ++ "]" ++ o ++ to_string v)
              (fst (buildQuery (where_ f o v c)))) as Hseg.
  { intros f o v c Hf.
    apply (@stored_filter_in_query (where_ f o v c) f
             {| Filter.operator := o; Filter.value := v |}).
    apply own_get_In. now apply Hget. }
  split; [now apply Hget|]. split; [|split; [|split; [|split]]].
  - intros operator' value'. unfold where_. cbn [filters]. f_equal.
    rewrite !Filters_set_field by assumption. cbn [Filters.own Filters.proto].
    now rewrite own_define_twice.
  - intros other Hother. cbn [where_ filters].
    rewrite Filters_set_field by assumption. cbn [Filters.own].
    rewrite own_get_define.
    destruct (String.eqb_spec field other) as [E | _]; [|reflexivity].
    now elim Hother.
  - now apply Hseg.
  - intros k f H. exact (stored_filter_in_query this k f H).
  - apply Contains_trans
      with (b := "&where[" ++ "search_name_or_email" ++ "]" ++ "=" ++ to_string (SStr "a@example.com")).
    + exists "&", "". reflexivity.
    + apply Hseg. discriminate.
Qed.

(** [where_sets_filter] at the field [status]. *)
Lemma where_sets_filter_witness :
  "status" <> "__proto__" /\
  Contains "&where[status]=active"
    (fst (buildQuery (where_ "status" "=" (SStr "active") (fresh_client "Bearer t" None)))).
Proof.
  assert ("status" <> "__proto__") as H by discriminate.
  split; [exact H|].
  destruct (@where_sets_filter "status" "=" (SStr "active")
              (fresh_client "Bearer t" None) H) as (_ & _ & _ & S & _).
  exact S.
Defined.

(* ================================================================== *)
(** * The constructor, case by case *)






(* ================================================================== *)
(** * Accepted tokens *)

Lemma all_chars_weaken (p q : ascii -> bool) (s : string) :
  (forall c, p c = true -> q c = true) ->
  all_chars p s = true -> all_chars q s = true.
Proof.
  intros H. induction s as [|c s IH]; simpl; [trivial|].
  intros A. apply andb_true_iff in A as [Hc A].
  now rewrite (H c Hc), IH.
Qed.

(** A token that [validateToken] accepts has 64 or 80 characters, each a
    lowercase hexadecimal digit or a character of the prefix [pco_tok_]: no
    space, no line break, no uppercase letter. *)
Theorem validateToken_shape (token : string)
  (Hvalid : validateToken token = true) :
  (String.length token = 64%nat \/ String.length token = 80%nat) /\
  all_chars token_char token = true.
Proof.
  assert (forall s, all_chars hex_lower s = true -> all_chars token_char s = true)
    as Hhex.
  { intros s. apply all_chars_weaken. intros c Hc. unfold token_char.
    now rewrite Hc. }
  apply validateToken_spec in Hvalid as [[L A] | (h & -> & L & A)].
  - split; [now left | now apply Hhex].
  - split.
    + right. rewrite append_length, L. reflexivity.
    + rewrite all_chars_app. rewrite (Hhex h A). reflexivity.
Qed.

(** [validateToken_shape] at a token of the current format. *)
Lemma validateToken_shape_witness :
  validateToken current_token = true /\
  (String.length current_token = 64%nat \/ String.length current_token = 80%nat).
Proof.
  assert (validateToken current_token = true) as H by (vm_compute; reflexivity).
  split; [exact H|].
  exact (proj1 (validateToken_shape current_token H)).
Defined.

(* ================================================================== *)
(** * What a request sends and what it gives back *)

(** The URL of every request of a constructed client, after any calls on
    it, is the configured base URL followed by the endpoint: the custom
    base URL of the configuration, or the public URL of the API when the
    custom one is absent or empty. *)
Theorem request_url (config : Config.t) (c : PcoClient) (calls : list Call)
  (endpoint : string) (options : RequestInit.t)
  (Hc : constructor config = Ok c) :
  url (request_call (chain calls c) endpoint options)
  = configured_base_url config ++ endpoint /\
  (Config.customApiBaseUrl config = Some "" ->
   url (request_call (chain calls c) endpoint options)
   = "https://api.planningcenteronline.com" ++ endpoint).
Proof.
  destruct (chain_frame calls c) as (_ & _ & Eb).
  apply constructor_Ok in Hc as (x & a & _ & _ & ->). cbn [customApiBaseUrl] in Eb.
  assert (url (request_call (chain calls
            {| customApiBaseUrl := Config.customApiBaseUrl config; version := x;
               authentication := a; includes := []; filters := Filters.empty;
               order := default_order; pagination := default_pagination |})
            endpoint options)
          = configured_base_url config ++ endpoint) as H.
  { unfold request_call, configured_base_url. cbn [url]. rewrite Eb.
    destruct (Config.customApiBaseUrl config) as [u|]; [|reflexivity].
    unfold truthy. now destruct (u =? ""). }
  split; [exact H|].
  intros E. rewrite H. unfold configured_base_url. now rewrite E.
Qed.

(** [request_url] at a configuration with a custom base URL. *)
Lemma request_url_witness :
  constructor local_config
  = Ok {| customApiBaseUrl := Some "http://localhost:8080"; version := None;
          authentication := "Basic YXBwOnNlY3JldA=="; includes := [];
          filters := Filters.empty; order := default_order;
          pagination := default_pagination |} /\
  url (request_call
         (chain [CallInclude ["emails"]]
            {| customApiBaseUrl := Some "http://localhost:8080"; version := None;
               authentication := "Basic YXBwOnNlY3JldA=="; includes := [];
               filters := Filters.empty; order := default_order;
               pagination := default_pagination |})
         "/people/v2" RequestInit.empty)
  = "http://localhost:8080/people/v2".
Proof.
  assert (constructor local_config
          = Ok {| customApiBaseUrl := Some "http://localhost:8080"; version := None;
                  authentication := "Basic YXBwOnNlY3JldA=="; includes := [];
                  filters := Filters.empty; order := default_order;
                  pagination := default_pagination |}) as H
    by (vm_compute; reflexivity).
  split; [exact H|].
  exact (proj1 (@request_url local_config _ [CallInclude ["emails"]] "/people/v2"
                  RequestInit.empty H)).
Defined.

Lemma own_get_spread_empty (V : Type) (k : string) (src : list (string * V)) :
  NoDup (map fst src) -> own_get k (spread src []) = own_get k src.
Proof.
  intros D. destruct (own_get k src) as [v|] eqn:E.
  - now apply own_get_spread.
  - rewrite own_get_spread_other; [reflexivity|]. now apply own_get_None_keys.
Qed.

(** The headers of a request made with options whose headers are an object
    (each name once): [Content-Type] is [application/json] and
    [Authorization] is the authentication of the client, whatever the
    caller gave under those names; every other header of the caller is sent
    as given, except [X-PCO-API-Version] when the client has a version; the
    method and the body are those of the caller. *)
Theorem request_headers (this : PcoClient) (endpoint : string) (options : RequestInit.t)
  (Hobject : NoDup (map fst (RequestInit.headers options))) :
  header "Content-Type" (request_call this endpoint options) = Some "application/json" /\
  header "Authorization" (request_call this endpoint options)
  = Some (authentication this) /\
  (forall name,
     name <> "Content-Type" -> name <> "Authorization" ->
     name <> "X-PCO-API-Version" ->
     header name (request_call this endpoint options)
     = own_get name (RequestInit.headers options)) /\
  (version this = None \/ version this = Some "" ->
   header "X-PCO-API-Version" (request_call this endpoint options)
   = own_get "X-PCO-API-Version" (RequestInit.headers options)) /\
  RequestInit.method (init (request_call this endpoint options))
  = RequestInit.method options /\
  RequestInit.body (init (request_call this endpoint options))
  = RequestInit.body options.
Proof.
  assert (forall name,
            name <> "Content-Type" -> name <> "Authorization" ->
            header name (request_call this endpoint options)
            = own_get name (RequestInit.headers (request_options this options)))
    as Hother.
  { intros name N1 N2. unfold header, request_call. cbn [init RequestInit.headers].
    rewrite !own_get_define.
    destruct (String.eqb_spec "Authorization" name) as [E|_]; [now elim N2|].
    destruct (String.eqb_spec "Content-Type" name) as [E|_]; [now elim N1|].
    apply own_get_spread_empty. now apply request_options_NoDup. }
  split; [|split; [apply authorization_header|split; [|split; [|split]]]].
  - unfold header, request_call. cbn [init RequestInit.headers].
    rewrite !own_get_define. reflexivity.
  - intros name N1 N2 N3. rewrite Hother by assumption.
    unfold request_options.
    destruct (version this) as [v|]; [|reflexivity].
    destruct (truthy v); [|reflexivity].
    cbn [RequestInit.headers]. rewrite own_get_define.
    destruct (String.eqb_spec "X-PCO-API-Version" name) as [E|_]; [now elim N3|].
    now apply own_get_spread_empty.
  - intros Hv. rewrite Hother by discriminate.
    unfold request_options. destruct Hv as [-> | ->]; reflexivity.
  - unfold request_call, request_options. cbn [init RequestInit.method].
    destruct (version this) as [v|]; [|reflexivity].
    destruct (truthy v); reflexivity.
  - unfold request_call, request_options. cbn [init RequestInit.body].
    destruct (version this) as [v|]; [|reflexivity].
    destruct (truthy v); reflexivity.
Qed.

(** [request_headers] at options that try to set the authorization. *)
Lemma request_headers_witness :
  let options :=
    {| RequestInit.method := Some "PUT";
       RequestInit.headers := [("Authorization", "Bearer other"); ("Accept", "text/plain")];
       RequestInit.body := None |} in
  NoDup (map fst (RequestInit.headers options)) /\
  header "Authorization"
    (request_call (fresh_client "Bearer t" (Some "2024-06-09")) "/x" options)
  = Some "Bearer t".
Proof.
  cbv zeta.
  assert (NoDup (map fst [("Authorization", "Bearer other"); ("Accept", "text/plain")]))
    as D.
  { repeat constructor; simpl; intuition discriminate. }
  split; [exact D|].
  exact (proj1 (proj2 (@request_headers (fresh_client "Bearer t" (Some "2024-06-09"))
                         "/x"
                         {| RequestInit.method := Some "PUT";
                            RequestInit.headers :=
                              [("Authorization", "Bearer other"); ("Accept", "text/plain")];
                            RequestInit.body := None |} D))).
Defined.

(** Every outcome of [request]. It resolves to a value exactly when the
    transport answered with a response whose status is 2xx and whose body
    parsed to that value. It fails with [e] exactly when the transport
    failed with [e], or answered with another status and [e] is the error
    about that status, or answered 2xx with a body whose parsing failed
    with [e]. *)
Theorem request_settles (fetch : FetchCall -> Result Response.t)
  (this : PcoClient) (endpoint : string) (options : RequestInit.t) :
  (forall body,
     request fetch this endpoint options = Ok body <->
     exists response,
       fetch (request_call this endpoint options) = Ok response /\
       200 <= Response.status response <= 299 /\
       Response.json response = Ok body) /\
  (forall e,
     request fetch this endpoint options = Throw e <->
     fetch (request_call this endpoint options) = Throw e \/
     exists response,
       fetch (request_call this endpoint options) = Ok response /\
       ((~ 200 <= Response.status response <= 299 /\
         e = Error (request_failed response)) \/
        (200 <= Response.status response <= 299 /\
         Response.json response = Throw e))).
Proof.
  assert (forall response,
            Response.ok response = true <-> 200 <= Response.status response <= 299)
    as Hok.
  { intros response. unfold Response.ok. rewrite andb_true_iff, !Z.leb_le. tauto. }
  unfold request, bind.
  destruct (fetch (request_call this endpoint options)) as [response|e0].
  - destruct (Response.ok response) eqn:E; cbn [negb].
    + apply Hok in E. split.
      * intros body. split; [intros H; exists response; auto|].
        intros (r & [= <-] & _ & H). exact H.
      * intros e. split.
        -- intros H. right. exists response. split; [reflexivity|]. right. auto.
        -- intros [H | (r & [= <-] & [[N _] | [_ H]])];
             [discriminate | contradiction | exact H].
    + assert (~ 200 <= Response.status response <= 299) as N.
      { intros H. apply Hok in H. congruence. }
      split.
      * intros body. split; [discriminate|].
        intros (r & [= <-] & H & _). contradiction.
      * intros e. split.
        -- intros [= <-]. right. exists response. split; [reflexivity|]. left. auto.
        -- intros [H | (r & [= <-] & [[_ ->] | [H _]])];
             [discriminate | reflexivity | contradiction].
  - split.
    + intros body. split; [discriminate | intros (r & H & _); discriminate].
    + intros e. split.
      * intros [= <-]. now left.
      * intros [[= <-] | (r & H & _)]; [reflexivity | discriminate].
Qed.

(* ================================================================== *)
(** * How the calls on a client compose *)








Lemma chain_order_symbol (calls : list Call) :
  forall this,
    Order.symbol (order this) = "" \/ Order.symbol (order this) = "-" ->
    Order.symbol (order (chain calls this)) = ""
    \/ Order.symbol (order (chain calls this)) = "-".
Proof.
  induction calls as [|m calls IH]; intros this H; [exact H|].
  unfold chain in *. cbn [fold_left]. apply IH.
  destruct m as [ | | f [[|]|] | | ]; cbn; auto.
Qed.

(** On a constructed client, after any calls, the order symbol is empty or
    a dash, so the order parameter of the query string is the field alone
    or the field after one dash. *)
Theorem order_symbol_invariant (config : Config.t) (c : PcoClient) (calls : list Call)
  (Hc : constructor config = Ok c) :
  let o := order (chain calls c) in
  (Order.symbol o = "" \/ Order.symbol o = "-") /\
  (Contains ("&order=" ++ Order.field o ++ "&limit=") (fst (buildQuery (chain calls c)))
   \/ Contains ("&order=-" ++ Order.field o ++ "&limit=")
        (fst (buildQuery (chain calls c)))).
Proof.
  cbv zeta.
  assert (Order.symbol (order (chain calls c)) = ""
          \/ Order.symbol (order (chain calls c)) = "-") as H.
  { apply chain_order_symbol.
    apply constructor_Ok in Hc as (x & a & _ & _ & ->). now left. }
  split; [exact H|].
  assert (Contains ("&order=" ++ Order.symbol (order (chain calls c))
                    ++ Order.field (order (chain calls c)) ++ "&limit=")
            (fst (buildQuery (chain calls c)))) as Hq.
  { rewrite buildQuery_query_string. unfold query_string.
    do 3 apply Contains_app_l.
    eexists "", _. rewrite !append_assoc. cbn [append]. reflexivity. }
  destruct H as [E | E]; rewrite E in Hq; [left | right]; exact Hq.
Qed.

(** [order_symbol_invariant] after an ascending [orderBy]. *)
Lemma order_symbol_invariant_witness :
  constructor (pat_config None) = Ok (fresh_client "Basic YXBwOnNlY3JldA==" None) /\
  (Order.symbol (order (chain [CallOrderBy "name" (Some asc)]
                          (fresh_client "Basic YXBwOnNlY3JldA==" None))) = ""
   \/ Order.symbol (order (chain [CallOrderBy "name" (Some asc)]
                             (fresh_client "Basic YXBwOnNlY3JldA==" None))) = "-").
Proof.
  assert (constructor (pat_config None)
          = Ok (fresh_client "Basic YXBwOnNlY3JldA==" None)) as H
    by (vm_compute; reflexivity).
  split; [exact H|].
  exact (proj1 (@order_symbol_invariant (pat_config None) _
                  [CallOrderBy "name" (Some asc)] H)).
Defined.



(** Builder calls of different methods commute: the client after
    [include], [where], [orderBy] and [paginate] does not depend on the
    order in which different methods were called. *)
Theorem builder_calls_commute (m1 m2 : Call) (this : PcoClient)
  (Hkind : call_kind m1 <> call_kind m2)
  (H1 : m1 <> CallBuildQuery) (H2 : m2 <> CallBuildQuery) :
  call m2 (call m1 this) = call m1 (call m2 this) /\
  fst (buildQuery (call m2 (call m1 this))) = fst (buildQuery (call m1 (call m2 this))).
Proof.
  assert (call m2 (call m1 this) = call m1 (call m2 this)) as E.
  { destruct m1, m2; cbn in Hkind; try reflexivity; try congruence. }
  split; [exact E | now rewrite E].
Qed.

(** [builder_calls_commute] at [paginate] and [where]. *)
Lemma builder_calls_commute_witness :
  call (CallWhere "status" "=" (SStr "active"))
    (call (CallPaginate 25 50) (fresh_client "Bearer t" None))
  = call (CallPaginate 25 50)
      (call (CallWhere "status" "=" (SStr "active")) (fresh_client "Bearer t" None)).
Proof.
  refine (proj1 (@builder_calls_commute (CallPaginate 25 50)
                   (CallWhere "status" "=" (SStr "active"))
                   (fresh_client "Bearer t" None) _ _ _)); discriminate.
Defined.

Lemma concat_comma_split (a b : string) (l : list string) :
  String.concat "," ((a ++ "," ++ b) :: l) = String.concat "," (a :: b :: l).
Proof.
  destruct l as [|x l]; cbn [String.concat].
  - reflexivity.
  - now rewrite !append_assoc.
Qed.

Lemma concat_comma_middle (l1 : list string) :
  forall a b l2,
    String.concat "," (l1 ++ (a ++ "," ++ b)%string :: l2)%list
    = String.concat "," (l1 ++ a :: b :: l2)%list.
Proof.
  induction l1 as [|x l1 IH]; intros a b l2.
  - apply concat_comma_split.
  - cbn [app]. specialize (IH a b l2).
    destruct l1 as [|y l1]; cbn [app String.concat] in *; now rewrite IH.
Qed.

(** Relation names are joined without escaping: a relation whose name
    holds a comma gives the same query string as the two relations on
    either side of the comma, and a single empty name the same as none. *)
Theorem include_commas (l1 l2 : list string) (a b : string) (this : PcoClient) :
  fst (buildQuery (include (l1 ++ (a ++ "," ++ b)%string :: l2)%list this))
  = fst (buildQuery (include (l1 ++ a :: b :: l2)%list this)) /\
  fst (buildQuery (include [""] this)) = fst (buildQuery (include [] this)).
Proof.
  split.
  - rewrite !buildQuery_query_string. cbn [include includes filters order pagination].
    unfold query_string, join. now rewrite concat_comma_middle.
  - reflexivity.
Qed.

(* ================================================================== *)
(** * The terminal requests, end to end *)

Lemma constructed_call_url (config : Config.t) (c : PcoClient) (calls : list Call)
  (endpoint : string) (options : RequestInit.t) :
  constructor config = Ok c ->
  url (request_call (chain calls c) endpoint options)
  = configured_base_url config ++ endpoint.
Proof.
  intros Hc. destruct (chain_frame calls c) as (_ & _ & Eb).
  apply constructor_Ok in Hc as (x & a & _ & _ & ->). cbn [customApiBaseUrl] in Eb.
  unfold request_call, configured_base_url. cbn [url]. rewrite Eb.
  destruct (Config.customApiBaseUrl config) as [u|]; [|reflexivity].
  unfold truthy. now destruct (u =? "").
Qed.

Lemma chain_buildQuery (calls : list Call) (c : PcoClient) :
  snd (buildQuery (chain calls c)) = chain (calls ++ [CallBuildQuery]) c.
Proof. unfold chain. now rewrite fold_left_app. Qed.

Lemma request_Ok_inv (fetch : FetchCall -> Result Response.t)
  (this : PcoClient) (endpoint : string) (options : RequestInit.t) (value : Json) :
  request fetch this endpoint options = Ok value <->
  exists response,
    fetch (request_call this endpoint options) = Ok response /\
    200 <= Response.status response <= 299 /\
    Response.json response = Ok value.
Proof.
  unfold request, bind. split.
  - destruct (fetch (request_call this endpoint options)) as [response|e];
      [|discriminate].
    destruct (Response.ok response) eqn:Hok; cbn [negb]; [|discriminate].
    intros H. exists response. split; [reflexivity|]. split; [|exact H].
    unfold Response.ok in Hok. apply andb_true_iff in Hok as [H1 H2].
    apply Z.leb_le in H1, H2. lia.
  - intros (response & -> & H & Hj).
    assert (Response.ok response = true) as ->; [|exact Hj].
    unfold Response.ok. apply andb_true_iff. split; apply Z.leb_le; lia.
Qed.

(** The one call of [fetch] behind each terminal request of a constructed
    client, after any calls on it: its URL is the configured base URL, the
    endpoint ([/people/v2/people] for [getPerson]) and the query string
    built from the builder; its method is absent for [get] and
    [getPerson], [POST], [PATCH] or [DELETE] otherwise; its body is the
    stringified argument for [post] and [patch] and absent otherwise; and
    the request resolves to a value exactly when the transport answers
    that call with a 2xx response whose body parses to the value. *)
Theorem terminal_request_call (config : Config.t) (c0 : PcoClient) (calls : list Call)
  (fetch : FetchCall -> Result Response.t) (JSON_stringify : Json -> string)
  (endpoint : string) (body value : Json)
  (Hc : constructor config = Ok c0) :
  let c := chain calls c0 in
  let resolves (r : Result Json) (path : string) (m b : option string) :=
    exists call,
      url call = configured_base_url config ++ path ++ fst (buildQuery c) /\
      RequestInit.method (init call) = m /\
      RequestInit.body (init call) = b /\
      header "Authorization" call = Some (authentication c0) /\
      (r = Ok value <->
       exists response,
         fetch call = Ok response /\
         200 <= Response.status response <= 299 /\
         Response.json response = Ok value) in
  resolves (fst (get fetch endpoint c)) endpoint None None /\
  resolves (fst (post fetch JSON_stringify endpoint body c)) endpoint
    (Some "POST") (Some (JSON_stringify body)) /\
  resolves (fst (patch fetch JSON_stringify endpoint body c)) endpoint
    (Some "PATCH") (Some (JSON_stringify body)) /\
  resolves (fst (delete fetch endpoint c)) endpoint (Some "DELETE") None /\
  resolves (fst (getPerson fetch c)) "/people/v2/people" None None.
Proof.
  cbv zeta.
  assert (forall path options,
    exists call,
      url call = configured_base_url config ++ path ++ fst (buildQuery (chain calls c0)) /\
      RequestInit.method (init call) = RequestInit.method options /\
      RequestInit.body (init call) = RequestInit.body options /\
      header "Authorization" call = Some (authentication c0) /\
      (request fetch (snd (buildQuery (chain calls c0)))
         (path ++ fst (buildQuery (chain calls c0))) options = Ok value <->
       exists response,
         fetch call = Ok response /\
         200 <= Response.status response <= 299 /\
         Response.json response = Ok value)) as H.
  { intros path options.
    exists (request_call (snd (buildQuery (chain calls c0)))
              (path ++ fst (buildQuery (chain calls c0))) options).
    split; [|split; [|split; [|split]]].
    - rewrite chain_buildQuery. now apply constructed_call_url.
    - unfold request_call, request_options. cbn [init RequestInit.method].
      destruct (version _) as [v|]; [destruct (truthy v)|]; reflexivity.
    - unfold request_call, request_options. cbn [init RequestInit.body].
      destruct (version _) as [v|]; [destruct (truthy v)|]; reflexivity.
    - rewrite authorization_header, chain_buildQuery.
      now destruct (chain_frame (calls ++ [CallBuildQuery]) c0) as (_ & -> & _).
    - apply request_Ok_inv. }
  unfold get, post, patch, delete, getPerson.
  destruct (buildQuery (chain calls c0)) as [q c'] eqn:E. cbn [fst snd] in *.
  repeat split.
  - exact (H endpoint RequestInit.empty).
  - exact (H endpoint {| RequestInit.method := Some "POST"; RequestInit.headers := [];
                         RequestInit.body := Some (JSON_stringify body) |}).
  - exact (H endpoint {| RequestInit.method := Some "PATCH"; RequestInit.headers := [];
                         RequestInit.body := Some (JSON_stringify body) |}).
  - exact (H endpoint {| RequestInit.method := Some "DELETE"; RequestInit.headers := [];
                         RequestInit.body := None |}).
  - exact (H "/people/v2/people" RequestInit.empty).
Qed.

(** [terminal_request_call] for [getPerson] on a client for the local
    server, after [include(['emails'])]. *)
Lemma terminal_request_call_witness :
  constructor local_config
  = Ok {| customApiBaseUrl := Some "http://localhost:8080"; version := None;
          authentication := "Basic YXBwOnNlY3JldA=="; includes := [];
          filters := Filters.empty; order := default_order;
          pagination := default_pagination |} /\
  exists call,
    url call
    = "http://localhost:8080/people/v2/people?include=emails&order=created_at&limit=10&offset=0"
    /\ RequestInit.method (init call) = None.
Proof.
  assert (constructor local_config
          = Ok {| customApiBaseUrl := Some "http://localhost:8080"; version := None;
                  authentication := "Basic YXBwOnNlY3JldA=="; includes := [];
                  filters := Filters.empty; order := default_order;
                  pagination := default_pagination |}) as H
    by (vm_compute; reflexivity).
  split; [exact H|].
  destruct (@terminal_request_call local_config _ [CallInclude ["emails"]]
              (always {| Response.status := 200; Response.statusText := "OK";
                         Response.json := Ok empty_people |})
              (fun _ => "null") "" JNull empty_people H)
    as (_ & _ & _ & _ & (call & U & M & _)).
  exists call. split; [exact U | exact M].
Defined.
